(** * PBPS Emote Search: a shallow embedding of [main.py]

    The development follows the Python module top to bottom: the string
    helpers the module relies on ([str.lower], [str.strip], [str.split],
    [str.splitlines], [in]), [norm], the tile post-processing of
    [fetch_emote_tiles_rendered], the list cache and [ensure_emote_list],
    [parse_emote_details], and the three API handlers.

    Conventions.
    - A Python [str] is a [string]; a character is read as the code point
      of its byte, so the model covers text whose code points lie below 256.
    - [time.time()] readings and ages are exact integers (seconds); the
      rounding of float subtraction is not represented.
    - The browser and the clock are an environment [env] of oracles; the
      two module-level caches and the oracle counters form the [state]
      threaded by the monad [M], whose second component carries a raised
      exception. *)

From Stdlib Require Import String Ascii NArith ZArith List Sorting.Sorted.
From stdpp Require Import base tactics option list gmap strings sorting.

Local Open Scope string_scope.
Local Open Scope Z_scope.

(** ** Characters *)

Module PyChar.

Definition code (c : ascii) : N := N_of_ascii c.

Definition between (lo hi : N) (c : ascii) : bool :=
  ((lo <=? code c) && (code c <=? hi))%N.

(** [str.isspace] on one code point: the set used by [split] and [strip]. *)
Definition isspace (c : ascii) : bool :=
  between 9 13 c || between 28 32 c || (code c =? 133)%N || (code c =? 160)%N.

(** Line boundaries of [str.splitlines]. *)
Definition islinebreak (c : ascii) : bool :=
  between 10 13 c || between 28 30 c || (code c =? 133)%N.

Definition isupper (c : ascii) : bool :=
  between 65 90 c || (between 192 222 c && negb (code c =? 215)%N).

Definition lower (c : ascii) : ascii :=
  if isupper c then ascii_of_N (code c + 32) else c.

(** The character class [[a-z0-9]] of the pattern in [norm]. *)
Definition in_az09 (c : ascii) : bool :=
  between 97 122 c || between 48 57 c.

Definition LF : ascii := ascii_of_N 10.
Definition CR : ascii := ascii_of_N 13.

End PyChar.

(** ** Strings *)

Module PyStr.

Definition is_empty (s : string) : bool :=
  match s with EmptyString => true | String _ _ => false end.

(** Truthiness of a [str]. *)
Definition truthy (s : string) : bool := negb (is_empty s).

Fixpoint map (f : ascii -> ascii) (s : string) : string :=
  match s with
  | EmptyString => EmptyString
  | String c s' => String (f c) (map f s')
  end.

Fixpoint filter (p : ascii -> bool) (s : string) : string :=
  match s with
  | EmptyString => EmptyString
  | String c s' => if p c then String c (filter p s') else filter p s'
  end.

Fixpoint all (p : ascii -> bool) (s : string) : bool :=
  match s with
  | EmptyString => true
  | String c s' => p c && all p s'
  end.

Definition snoc (s : string) (c : ascii) : string := s ++ String c EmptyString.

(** [s.lower()] *)
Definition lower (s : string) : string := map PyChar.lower s.

(** [s.lstrip(chars)], [s.rstrip(chars)], [s.strip(chars)] with the
    stripped set given as a predicate. *)
Fixpoint lstrip_by (p : ascii -> bool) (s : string) : string :=
  match s with
  | EmptyString => EmptyString
  | String c s' => if p c then lstrip_by p s' else s
  end.

Fixpoint rstrip_by (p : ascii -> bool) (s : string) : string :=
  match s with
  | EmptyString => EmptyString
  | String c s' =>
      let r := rstrip_by p s' in
      if p c && is_empty r then EmptyString else String c r
  end.

Definition strip_by (p : ascii -> bool) (s : string) : string :=
  rstrip_by p (lstrip_by p s).

(** [s.strip()] *)
Definition strip (s : string) : string := strip_by PyChar.isspace s.

(** [s.split()]: maximal runs of non-whitespace characters. *)
Fixpoint split_go (cur : string) (s : string) : list string :=
  match s with
  | EmptyString => if is_empty cur then [] else [cur]
  | String c s' =>
      if PyChar.isspace c
      then (if is_empty cur then split_go EmptyString s'
            else cur :: split_go EmptyString s')
      else split_go (snoc cur c) s'
  end.

Definition split (s : string) : list string := split_go EmptyString s.

(** [s.split(sep)] for a one-character separator. *)
Fixpoint split_on_go (sep : ascii) (cur : string) (s : string) : list string :=
  match s with
  | EmptyString => [cur]
  | String c s' =>
      if Ascii.eqb c sep then cur :: split_on_go sep EmptyString s'
      else split_on_go sep (snoc cur c) s'
  end.

Definition split_on (sep : ascii) (s : string) : list string :=
  split_on_go sep EmptyString s.

(** [s.splitlines()]; [skip_lf] is set right after a carriage return so
    that a CR LF pair ends one line only. *)
Fixpoint splitlines_go (cur : string) (skip_lf : bool) (s : string) : list string :=
  match s with
  | EmptyString => if is_empty cur then [] else [cur]
  | String c s' =>
      if skip_lf && Ascii.eqb c PyChar.LF then splitlines_go cur false s'
      else if PyChar.islinebreak c
           then cur :: splitlines_go EmptyString (Ascii.eqb c PyChar.CR) s'
           else splitlines_go (snoc cur c) false s'
  end.

Definition splitlines (s : string) : list string :=
  splitlines_go EmptyString false s.

(** [sep.join(l)] *)
Fixpoint join (sep : string) (l : list string) : string :=
  match l with
  | [] => EmptyString
  | [x] => x
  | x :: l' => x ++ sep ++ join sep l'
  end.

(** [sub in s] *)
Fixpoint contains (sub s : string) : bool :=
  String.prefix sub s ||
  match s with
  | EmptyString => false
  | String _ s' => contains sub s'
  end.

End PyStr.

(** ** Lists *)

Module PyList.

(** [l.index(x, start)]: [None] stands for [ValueError]. *)
Fixpoint index_from (x : string) (start : nat) (l : list string) : option nat :=
  match l with
  | [] => None
  | y :: l' =>
      match start with
      | O => if String.eqb y x then Some O else S <$> index_from x O l'
      | S k => S <$> index_from x k l'
      end
  end.

(** [x in l] *)
Definition mem (x : string) (l : list string) : bool :=
  existsb (String.eqb x) l.

(** [l[:n]] for an arbitrary integer [n]: a negative bound counts from
    the end. *)
Definition slice_to {A} (n : Z) (l : list A) : list A :=
  if n <? 0 then take (length l - Z.to_nat (- n)) l
  else take (Z.to_nat n) l.

End PyList.

(** ** [norm] *)

(** [re.sub(r"[^a-z0-9]+", "", s.lower())]: every maximal run of characters
    outside the class is replaced by the empty string. *)
Definition norm (s : string) : string :=
  PyStr.filter PyChar.in_az09 (PyStr.lower s).

(** ** Data model *)

(** An element of the list returned by [page.eval_on_selector_all]: a
    dictionary whose ["name"] and ["imageUrl"] entries may be [None]. *)
Record raw_tile := RawTile {
  raw_name : option string;
  raw_imageUrl : option string
}.

(** A cached tile [{"name": n, "imageUrl": u}]. *)
Record tile := Tile {
  name : string;
  imageUrl : option string
}.

#[global] Instance tile_eq_dec : EqDecision tile.
Proof. solve_decision. Defined.

#[global] Instance raw_tile_eq_dec : EqDecision raw_tile.
Proof. solve_decision. Defined.

(** [_emote_list_cache] *)
Record list_cache := ListCache {
  updated_at : Z;
  tiles : list tile
}.

(** ** Stable sort by key *)

(** [list.sort(key=...)] is stable; the model is an insertion sort that
    places an element before the elements of equal key that followed it. *)
Section SortByKey.
Context {A : Type} (key : A -> string).

Definition key_le (x y : A) : Prop := String.le (key x) (key y).

Fixpoint insert_by_key (x : A) (l : list A) : list A :=
  match l with
  | [] => [x]
  | y :: l' =>
      if String.leb (key x) (key y) then x :: y :: l'
      else y :: insert_by_key x l'
  end.

Fixpoint sort_by_key (l : list A) : list A :=
  match l with
  | [] => []
  | x :: l' => insert_by_key x (sort_by_key l')
  end.
End SortByKey.

(** ** Tile post-processing of [fetch_emote_tiles_rendered] *)

(** [(t.get("name") or "").strip()] *)
Definition tile_name (t : raw_tile) : string :=
  PyStr.strip (default EmptyString (raw_name t)).

(** The de-duplication loop, with its [seen] set and [out] list. *)
Fixpoint dedup_loop (seen : gset string) (out : list tile) (ts : list raw_tile)
  : list tile :=
  match ts with
  | [] => out
  | t :: rest =>
      let n := tile_name t in
      if PyStr.is_empty n || bool_decide (n ∈ seen)
      then dedup_loop seen out rest
      else dedup_loop ({[n]} ∪ seen) (out ++ [Tile n (raw_imageUrl t)]) rest
  end.

(** [lambda x: x["name"].lower()] *)
Definition sort_key (t : tile) : string := PyStr.lower (name t).

(** Lines 85-96: what becomes of the extracted dictionaries. *)
Definition process_tiles (ts : list raw_tile) : list tile :=
  sort_by_key sort_key (dedup_loop ∅ [] ts).

(** ** Detail extraction: [parse_emote_details] *)

Definition BASE_URL : string := "https://pixelbypixel.studio/emotes".

(** An [<a>] element as the extractor reads it: its [href] attribute and
    [a.get_text(strip=True)]. *)
Record anchor := Anchor {
  href : option string;
  anchor_text : string
}.

(** The rendered document as [BeautifulSoup] presents it to the two
    queries made on it: the [<a>] elements in document order and
    [soup.get_text("\n")]. *)
Record html := Html {
  anchors : list anchor;
  page_text : string
}.

(** The dictionary returned by [parse_emote_details]. *)
Record details := Details {
  emoteName : string;
  channel : option string;
  channelUrl : option string;
  source : option string;
  tier : option string;
  expires : option string;
  detailsUrl : string;
  notFound : bool
}.

(** Truthiness of an optional string ([None] and [""] are falsy). *)
Definition truthy_opt (o : option string) : bool :=
  match o with
  | Some s => PyStr.truthy s
  | None => false
  end.

(** [soup.select('a[href*="twitch.tv/"]')] *)
Definition select_twitch (doc : html) : list anchor :=
  filter (fun a => from_option (PyStr.contains "twitch.tv/") false (href a) = true)
         (anchors doc).

(** The [for a in ...] loop: the first link with both [href] and text. *)
Fixpoint first_labelled (l : list anchor) : option string * option string :=
  match l with
  | [] => (None, None)
  | a :: rest =>
      if truthy_opt (href a) && PyStr.truthy (anchor_text a)
      then (href a, Some (anchor_text a))
      else first_labelled rest
  end.

Definition is_slash (c : ascii) : bool := Ascii.eqb c "/"%char.

(** [lines]: the stripped non-blank lines of the flattened text. *)
Definition flat_lines (doc : html) : list string :=
  PyStr.strip <$>
    filter (fun x => PyStr.truthy (PyStr.strip x) = true)
           (PyStr.splitlines (page_text doc)).

(** [lines[k]] guarded by [k < len(lines)]. *)
Definition line_at (lines : list string) (k : nat) : option string :=
  if decide (k < length lines)%nat then lines !! k else None.

(** The [try: exp_i = lines.index("Expires:", start) ... except ValueError]
    block. *)
Definition expires_from (lines : list string) (start : nat) : option string :=
  match PyList.index_from "Expires:" start lines with
  | Some exp_i => line_at lines (exp_i + 1)
  | None => None
  end.

Section Details.

(** [urlparse(u).path]; [None] when [urlparse] raises. *)
Variable urlparse_path : string -> option string.

(** The fallback block that derives a label from the link path. *)
Definition channel_fallback (channel_url channel_label : option string)
  : option string :=
  if negb (truthy_opt channel_label) && truthy_opt channel_url then
    match channel_url ≫= urlparse_path with
    | Some p =>
        let path := PyStr.strip_by is_slash p in
        if PyStr.truthy path then head (PyStr.split_on "/"%char path)
        else channel_label
    | None => channel_label
    end
  else channel_label.

Definition parse_emote_details (emote_name : string) (doc : html) : details :=
  let '(channel_url, channel_label0) := first_labelled (select_twitch doc) in
  let channel_label := channel_fallback channel_url channel_label0 in
  let lines := flat_lines doc in
  let joined := PyStr.join (String PyChar.LF EmptyString) lines in
  let not_found := PyStr.contains "Emote not found" joined in
  let '(source, tier, expires) :=
    if PyList.mem emote_name lines then
      match PyList.index_from emote_name 0 lines with
      | Some i => (line_at lines (i + 2), line_at lines (i + 3),
                   expires_from lines i)
      | None => (None, None, None)
      end
    else (None, None, expires_from lines 0) in
  {| emoteName := emote_name;
     channel := channel_label;
     channelUrl := channel_url;
     source := source;
     tier := tier;
     expires := expires;
     detailsUrl := BASE_URL ++ "?emoteName=" ++ emote_name;
     notFound := not_found |}.

End Details.

(** ** Exceptions, caches and the handler monad *)

(** The exception classes that reach the module. [PlaywrightError] stands
    for [playwright.sync_api.Error] and its subclasses ([TimeoutError]
    among them); [type_name] is [type(e).__name__] and [message] is
    [str(e)]. Every constructor is a subclass of [Exception]. *)
Inductive exn :=
| HTTPException (status_code : Z) (detail : string)
| PlaywrightError (type_name : string) (message : string)
| OtherException (type_name : string) (message : string).

(** The dictionary returned by [api_emote_detail]: the parsed details with
    the ["imageUrl"] entry attached. *)
Record detail_record := DetailRecord {
  parsed : details;
  d_imageUrl : option string
}.

(** An entry of [_detail_cache]. *)
Record detail_entry := DetailEntry {
  cachedAt : Z;
  data : detail_record
}.

(** The outside world: successive readings of [time.time()], successive
    runs of the browser session of [fetch_emote_tiles_rendered], and
    successive calls of [_render_page_html url wait_for_text]. *)
Record env := Env {
  clock : nat -> Z;
  grid_browser : nat -> exn + list raw_tile;
  page_browser : nat -> string -> option string -> exn + html
}.

(** Module state: the two caches, and how often each oracle was used. *)
Record state := State {
  emote_list_cache : list_cache;
  detail_cache : gmap string detail_entry;
  clock_reads : nat;
  grid_renders : nat;
  page_renders : nat
}.

Inductive outcome (A : Type) :=
| Returns (a : A)
| Raises (e : exn).
Arguments Returns {A} a.
Arguments Raises {A} e.

Definition M (A : Type) : Type := state -> outcome A * state.

Definition ret {A} (a : A) : M A := fun s => (Returns a, s).

Definition bind {A B} (m : M A) (k : A -> M B) : M B :=
  fun s =>
    match m s with
    | (Returns a, s') => k a s'
    | (Raises e, s') => (Raises e, s')
    end.

Definition raise {A} (e : exn) : M A := fun s => (Raises e, s).

(** [try: m  except ...: handler]; [handler e = None] when no clause
    matches [e]. State changes made before the exception are kept. *)
Definition try_except {A} (m : M A) (handler : exn -> option (M A)) : M A :=
  fun s =>
    match m s with
    | (Returns a, s') => (Returns a, s')
    | (Raises e, s') =>
        match handler e with
        | Some h => h s'
        | None => (Raises e, s')
        end
    end.

#[global] Instance M_ret : MRet M := @ret.
#[global] Instance M_bind : MBind M := fun A B k m => bind m k.

Definition get_list_cache : M list_cache :=
  fun s => (Returns (emote_list_cache s), s).

Definition set_updated_at (t : Z) : M unit :=
  fun s =>
    (Returns tt,
     State (ListCache t (tiles (emote_list_cache s)))
           (detail_cache s) (clock_reads s) (grid_renders s) (page_renders s)).

Definition set_tiles (ts : list tile) : M unit :=
  fun s =>
    (Returns tt,
     State (ListCache (updated_at (emote_list_cache s)) ts)
           (detail_cache s) (clock_reads s) (grid_renders s) (page_renders s)).

Definition get_detail (k : string) : M (option detail_entry) :=
  fun s => (Returns (detail_cache s !! k), s).

Definition set_detail (k : string) (e : detail_entry) : M unit :=
  fun s =>
    (Returns tt,
     State (emote_list_cache s) (<[k := e]> (detail_cache s))
           (clock_reads s) (grid_renders s) (page_renders s)).

Definition of_sum {A} (r : exn + A) : outcome A :=
  match r with
  | inl e => Raises e
  | inr a => Returns a
  end.

Section Handlers.

Variable E : env.
Variable urlparse_path : string -> option string.

(** [time.time()] *)
Definition time_time : M Z :=
  fun s =>
    (Returns (clock E (clock_reads s)),
     State (emote_list_cache s) (detail_cache s)
           (S (clock_reads s)) (grid_renders s) (page_renders s)).

(** The browser session of [fetch_emote_tiles_rendered] (lines 54-83). *)
Definition render_grid : M (list raw_tile) :=
  fun s =>
    (of_sum (grid_browser E (grid_renders s)),
     State (emote_list_cache s) (detail_cache s)
           (clock_reads s) (S (grid_renders s)) (page_renders s)).

(** [_render_page_html(url, wait_for_text)] *)
Definition _render_page_html (url : string) (wait_for_text : option string)
  : M html :=
  fun s =>
    (of_sum (page_browser E (page_renders s) url wait_for_text),
     State (emote_list_cache s) (detail_cache s)
           (clock_reads s) (grid_renders s) (S (page_renders s))).

Definition fetch_emote_tiles_rendered : M (list tile) :=
  raw ← render_grid;
  ret (process_tiles raw).

Definition default_max_age : Z := 6 * 60 * 60.

Definition is_nil {A} (l : list A) : bool :=
  match l with [] => true | _ :: _ => false end.

Definition ensure_emote_list (max_age_seconds : Z) : M unit :=
  now ← time_time;
  c ← get_list_cache;
  if negb (is_nil (tiles c)) && (now - updated_at c <? max_age_seconds)
  then ret tt
  else
    ts ← try_except fetch_emote_tiles_rendered
            (fun e =>
               match e with
               | PlaywrightError ty msg =>
                   Some (raise (HTTPException 500
                     ("Playwright failed to render emotes list: "
                        ++ ty ++ ": " ++ msg)))
               | _ => None
               end);
    if is_nil ts then
      set_updated_at 0;;
      raise (HTTPException 502 "Parsed 0 emote tiles after rendering.")
    else
      set_tiles ts;;
      set_updated_at now.

(** Lines 204-206 of [api_emotes]: the match set for a query. *)
Definition search_tiles (q : string) (ts : list tile) : list tile :=
  if PyStr.truthy q then
    let terms :=
      norm <$> filter (fun t => PyStr.truthy (PyStr.strip t) = true)
                      (PyStr.split q) in
    filter (fun t =>
              forallb (fun term => PyStr.contains term (norm (name t))) terms
              = true) ts
  else ts.

Record emotes_response := EmotesResponse {
  count : nat;
  updatedAt : Z;
  items : list tile
}.

(** [GET /api/emotes] *)
Definition api_emotes (q : string) (limit : Z) : M emotes_response :=
  ensure_emote_list default_max_age;;
  c ← get_list_cache;
  let matched := search_tiles q (tiles c) in
  c' ← get_list_cache;
  ret {| count := length matched;
         updatedAt := updated_at c';
         items := PyList.slice_to limit matched |}.

Record refresh_response := RefreshResponse {
  ok : bool;
  r_count : nat;
  r_updatedAt : Z
}.

(** [POST /api/refresh] *)
Definition api_refresh : M refresh_response :=
  set_updated_at 0;;
  set_tiles [];;
  ensure_emote_list 0;;
  c ← get_list_cache;
  ret {| ok := true;
         r_count := length (tiles c);
         r_updatedAt := updated_at c |}.

(** [next((t.get("imageUrl") for t in tiles if t.get("name") == n), None)] *)
Definition lookup_image (n : string) (ts : list tile) : option string :=
  match List.find (fun t => String.eqb (name t) n) ts with
  | Some t => imageUrl t
  | None => None
  end.

(** Lines 246-255: the enrichment block. *)
Definition attach_image (emote_name : string) (d : details) : M detail_record :=
  try_except
    (ensure_emote_list default_max_age;;
     c ← get_list_cache;
     ret (DetailRecord d (lookup_image emote_name (tiles c))))
    (fun _ => Some (ret (DetailRecord d None))).

(** Lines 229-231: the cached record, when there is one young enough. *)
Definition cached_detail (emote_name : string) : M (option detail_record) :=
  cached ← get_detail emote_name;
  match cached with
  | Some entry =>
      now ← time_time;
      if now - cachedAt entry <? 24 * 60 * 60 then ret (Some (data entry))
      else ret None
  | None => ret None
  end.

(** Lines 233-242: the render of the details page. *)
Definition render_details (emote_name : string) : M html :=
  let url := BASE_URL ++ "?emoteName=" ++ emote_name in
  try_except (_render_page_html url (Some "Expires:"))
    (fun e =>
       match e with
       | PlaywrightError ty msg =>
           Some (raise (HTTPException 500
             ("Playwright failed to render emote details: "
                ++ ty ++ ": " ++ msg)))
       | _ => None
       end).

(** [GET /api/emotes/{emote_name}] *)
Definition api_emote_detail (emote_name : string) : M detail_record :=
  hit ← cached_detail emote_name;
  match hit with
  | Some d => ret d
  | None =>
      doc ← render_details emote_name;
      let d := parse_emote_details urlparse_path emote_name doc in
      rec ← attach_image emote_name d;
      now ← time_time;
      set_detail emote_name (DetailEntry now rec);;
      ret rec
  end.

End Handlers.

(** ** Specification-side notions *)

(** [sub] occurs in [s] as a contiguous block. *)
Definition Substring (sub s : string) : Prop :=
  exists a b : string, s = a ++ sub ++ b.

(** A term of the query matches a tile name after normalisation of both. *)
Definition term_matches (term nm : string) : Prop :=
  Substring (norm term) (norm nm).

(** *** The search sentence in the specification's own words

    These notions are written without the helpers of the embedding, so
    that the statement about the search says what the terms and the
    normalisation are, not only that the code uses its own. *)

(** The code points below 256 that count as whitespace. *)
Definition whitespace_codes : list N :=
  [9; 10; 11; 12; 13; 28; 29; 30; 31; 32; 133; 160]%N.

Definition is_whitespace (c : ascii) : Prop :=
  N_of_ascii c ∈ whitespace_codes.

Fixpoint chars_all (P : ascii -> Prop) (s : string) : Prop :=
  match s with
  | EmptyString => True
  | String c s' => P c /\ chars_all P s'
  end.

Definition whitespace_free (s : string) : Prop :=
  chars_all (fun c => ~ is_whitespace c) s.

Definition starts_with_whitespace (s : string) : Prop :=
  match s with
  | EmptyString => False
  | String c _ => is_whitespace c
  end.

Definition ends_with_whitespace (s : string) : Prop :=
  exists p c, s = p ++ String c EmptyString /\ is_whitespace c.

(** A whitespace-separated term of [q]: a non-empty block of [q] without
    whitespace that is maximal, that is, bounded on each side by whitespace
    or by the end of [q]. *)
Definition is_term_of (q term : string) : Prop :=
  term <> EmptyString /\ whitespace_free term /\
  exists before after,
    q = before ++ term ++ after /\
    (before = EmptyString \/ ends_with_whitespace before) /\
    (after = EmptyString \/ starts_with_whitespace after).

Definition lowercase_letters : string := "abcdefghijklmnopqrstuvwxyz".
Definition uppercase_letters : string := "ABCDEFGHIJKLMNOPQRSTUVWXYZ".
Definition decimal_digits : string := "0123456789".

(** The first position of a character in a string. *)
Fixpoint position (c : ascii) (s : string) : option nat :=
  match s with
  | EmptyString => None
  | String d s' => if Ascii.eqb c d then Some O else S <$> position c s'
  end.

(** What normalisation makes of one character: a lowercase letter or a
    digit stays, an uppercase letter becomes the lowercase letter at the
    same place of the alphabet, and every other character is removed. *)
Definition normalised_char (c : ascii) : option ascii :=
  match position c (lowercase_letters ++ decimal_digits) with
  | Some _ => Some c
  | None =>
      match position c uppercase_letters with
      | Some i => String.get i lowercase_letters
      | None => None
      end
  end.

(** Lowercased, with every character outside [[a-z0-9]] removed. *)
Fixpoint normalised (s : string) : string :=
  match s with
  | EmptyString => EmptyString
  | String c s' =>
      match normalised_char c with
      | Some d => String d (normalised s')
      | None => normalised s'
      end
  end.

(** The list cache may be reused at time [now] for the given maximal age. *)
Definition cache_usable (now max_age : Z) (c : list_cache) : Prop :=
  tiles c <> [] /\ now - updated_at c < max_age.

(** First occurrences only: an element is kept when no earlier element
    carries the same name. *)
Fixpoint keep_first (l : list tile) : list tile :=
  match l with
  | [] => []
  | t :: l' => t :: filter (fun u => name u <> name t) (keep_first l')
  end.


(** The extracted pair read as a tile, name stripped of surrounding
    whitespace. *)
Definition trimmed_tile (t : raw_tile) : tile :=
  Tile (tile_name t) (raw_imageUrl t).

Definition named (l : list tile) : list tile :=
  filter (fun t => name t <> EmptyString) l.


(** The same pipeline on names stripped of surrounding whitespace. *)
Definition stored_trimmed (raw : list raw_tile) : list tile :=
  sort_by_key sort_key (keep_first (named (trimmed_tile <$> raw))).

(** [i] is the first index of [x] in [l] at or after [start]. *)
Definition first_index_from (x : string) (start : nat) (l : list string) (i : nat)
  : Prop :=
  (start <= i)%nat /\ l !! i = Some x /\
  forall j, (start <= j < i)%nat -> l !! j <> Some x.

(** Sample inputs used to exercise the handlers. *)
Definition sample_grid : list raw_tile :=
  [RawTile (Some "Golden Goat") (Some "https://cdn.example/goat.png");
   RawTile (Some "Golden Frog") None].

Definition sample_env : env :=
  {| clock := fun n => 1000 + Z.of_nat n;
     grid_browser := fun _ => inr sample_grid;
     page_browser := fun _ _ _ => inr (Html [] EmptyString) |}.

Definition initial_state : state :=
  {| emote_list_cache := ListCache 0 [];
     detail_cache := ∅;
     clock_reads := 0;
     grid_renders := 0;
     page_renders := 0 |}.

Definition no_urlparse : string -> option string := fun _ => None.

(** A populated but old list cache. *)
Definition stale_state : state :=
  {| emote_list_cache := ListCache 5 [Tile "Old Emote" None];
     detail_cache := ∅;
     clock_reads := 0;
     grid_renders := 0;
     page_renders := 0 |}.

Definition six_lines : list string :=
  ["Golden Goat"; "SomeChannel"; "Sub Gift"; "Tier 3"; "Expires:"; "2025-01-01"].

Definition document_of (lines : list string) : html :=
  Html [] (PyStr.join (String PyChar.LF EmptyString) lines).

(** The grid renders, but no anchor carries a usable name. *)
Definition empty_grid_env : env :=
  {| clock := fun n => 100000 + Z.of_nat n;
     grid_browser := fun _ => inr [RawTile (Some " ") None];
     page_browser := fun _ _ _ => inr (document_of six_lines) |}.

(** The browser times out on the grid. *)
Definition failing_env : env :=
  {| clock := fun n => 100000 + Z.of_nat n;
     grid_browser :=
       fun _ => inl (PlaywrightError "TimeoutError" "Timeout 60000ms exceeded.");
     page_browser := fun _ _ _ => inr (document_of six_lines) |}.

(** Not a whitespace character. *)
Definition no_space (c : ascii) : bool := negb (PyChar.isspace c).

(** ** Notions used by the further properties *)


(** A name that is non-empty and carries no surrounding whitespace. *)
Definition trimmed_name (n : string) : Prop :=
  n <> EmptyString /\ PyStr.strip n = n.

(** Well-formed tile list: distinct names, ascending lowercased names,
    every name non-empty and stripped. *)
Definition tiles_wf (ts : list tile) : Prop :=
  NoDup (name <$> ts) /\
  StronglySorted (key_le sort_key) ts /\
  Forall (fun t => trimmed_name (name t)) ts.

(** The test of a tile against the normalised terms of a query. *)
Definition matches_terms (terms : list string) (t : tile) : bool :=
  forallb (fun term => PyStr.contains term (norm (name t))) terms.

(** A list cache filled at time 1000 with the processed sample grid. *)
Definition warm_state : state :=
  {| emote_list_cache := ListCache 1000 (process_tiles sample_grid);
     detail_cache := ∅;
     clock_reads := 0;
     grid_renders := 0;
     page_renders := 0 |}.

(** The state after one more reading of the clock. *)
Definition ticked (s : state) : state :=
  State (emote_list_cache s) (detail_cache s) (S (clock_reads s))
        (grid_renders s) (page_renders s).

(** The state after one more run of [_render_page_html]. *)
Definition page_rendered (s : state) : state :=
  State (emote_list_cache s) (detail_cache s) (clock_reads s)
        (grid_renders s) (S (page_renders s)).

(** The state after a record was stored under [k] at the next clock
    reading. *)
Definition detail_stored (E : env) (k : string) (rec : detail_record)
    (s : state) : state :=
  State (emote_list_cache s)
        (<[k := DetailEntry (clock E (clock_reads s)) rec]> (detail_cache s))
        (S (clock_reads s)) (grid_renders s) (page_renders s).

(** The URL of the details page of a name. *)
Definition details_url (emote_name : string) : string :=
  BASE_URL ++ "?emoteName=" ++ emote_name.

(** The details page fails to render. *)
Definition page_failing_env : env :=
  {| clock := fun n => 100000 + Z.of_nat n;
     grid_browser := fun _ => inr sample_grid;
     page_browser :=
       fun _ _ _ => inl (PlaywrightError "TimeoutError" "Timeout 60000ms exceeded.") |}.

(** A detail cache that already holds a record for another name. *)
Definition other_cached_state : state :=
  {| emote_list_cache := ListCache 0 [];
     detail_cache :=
       {[ "Silver Fox" :=
            DetailEntry 5
              (DetailRecord
                 (parse_emote_details no_urlparse "Silver Fox" (Html [] EmptyString))
                 None) ]};
     clock_reads := 0;
     grid_renders := 0;
     page_renders := 0 |}.

(** The character [c] does not occur in [s]. *)
Definition lacks (c : ascii) (s : string) : bool :=
  PyStr.all (fun d => negb (Ascii.eqb d c)) s.

(** The browser session dies with an exception that is not Playwright's. *)
Definition crashing_env : env :=
  {| clock := fun n => 100000 + Z.of_nat n;
     grid_browser := fun _ => inl (OtherException "OSError" "browser executable not found");
     page_browser := fun _ _ _ => inr (document_of six_lines) |}.

(** An exception that the [except] clauses on Playwright errors let through. *)
Definition not_playwright (e : exn) : Prop :=
  match e with
  | PlaywrightError _ _ => False
  | _ => True
  end.

(** Unfolds the monad and its primitive operations. *)
Ltac unfold_monad :=
  unfold mbind, mret, M_bind, M_ret, bind, ret, raise, try_except,
    get_list_cache, set_updated_at, set_tiles, get_detail, set_detail,
    time_time, render_grid, _render_page_html, of_sum in *.

(** * Properties *)

(** ** Lists *)

Lemma filter_all {A} (P : A -> Prop) `{!forall x, Decision (P x)} (l : list A) :
  (forall x, x ∈ l -> P x) -> filter P l = l.
Proof.
  induction l as [|x l IH]; intros Hall; [done|].
  rewrite filter_cons_True by (apply Hall; left).
  f_equal. apply IH. intros y Hy. apply Hall. by right.
Qed.

(** ** Strings *)

Lemma append_nil_l (s : string) : "" ++ s = s.
Proof. reflexivity. Qed.

Lemma append_cons (c : ascii) (a b : string) :
  String c a ++ b = String c (a ++ b).
Proof. reflexivity. Qed.

Lemma append_nil_r (s : string) : s ++ "" = s.
Proof.
  induction s as [|c s IH]; [done|]. by rewrite append_cons, IH.
Qed.

Lemma append_assoc (a b c : string) : (a ++ b) ++ c = a ++ (b ++ c).
Proof.
  induction a as [|x a IH]; [done|]. by rewrite !append_cons, IH.
Qed.

Lemma snoc_append (a : string) (c : ascii) (b : string) :
  PyStr.snoc a c ++ b = a ++ String c b.
Proof. unfold PyStr.snoc. by rewrite append_assoc. Qed.

Lemma snoc_not_empty (a : string) (c : ascii) :
  PyStr.is_empty (PyStr.snoc a c) = false.
Proof. by destruct a. Qed.

Lemma all_snoc (p : ascii -> bool) (a : string) (c : ascii) :
  PyStr.all p (PyStr.snoc a c) = PyStr.all p a && p c.
Proof.
  induction a as [|x a IH]; simpl.
  - by rewrite andb_true_r.
  - unfold PyStr.snoc in IH. rewrite IH. by rewrite andb_assoc.
Qed.

Lemma prefix_spec (sub s : string) :
  String.prefix sub s = true <-> exists b, s = sub ++ b.
Proof.
  revert s. induction sub as [|c sub IH]; intros s.
  - split; [intros _; by exists s | by destruct s].
  - destruct s as [|d s]; simpl.
    + split; [done | intros [b Hb]; discriminate].
    + destruct (ascii_dec c d) as [->|Hne].
      * rewrite IH. split; intros [b Hb]; exists b;
          rewrite append_cons in *; congruence.
      * split; [done | intros [b Hb]; rewrite append_cons in Hb; congruence].
Qed.

(** [sub in s] holds exactly when [sub] is a contiguous block of [s]. *)
Lemma contains_nil (sub : string) :
  PyStr.contains sub "" = String.prefix sub "".
Proof. unfold PyStr.contains. apply orb_false_r. Qed.

Lemma contains_cons (sub : string) (c : ascii) (s : string) :
  PyStr.contains sub (String c s)
  = String.prefix sub (String c s) || PyStr.contains sub s.
Proof. reflexivity. Qed.

Lemma contains_spec (sub s : string) :
  PyStr.contains sub s = true <-> Substring sub s.
Proof.
  induction s as [|c s IH].
  - rewrite contains_nil, prefix_spec. split.
    + intros [b Hb]. by exists "", b.
    + intros ([|x a] & b & Hab); [by exists b | discriminate].
  - rewrite contains_cons, orb_true_iff, IH, prefix_spec. split.
    + intros [[b Hb] | (a & b & Hab)].
      * by exists "", b.
      * exists (String c a), b. by rewrite append_cons, Hab.
    + intros ([|x a] & b & Hab).
      * left. by exists b.
      * right. exists a, b. rewrite append_cons in Hab. congruence.
Qed.

Lemma contains_empty (s : string) : PyStr.contains "" s = true.
Proof. apply contains_spec. by exists "", s. Qed.

(** [q.split()] *)

Lemma split_go_word (acc w s : string) :
  PyStr.all no_space w = true ->
  PyStr.split_go acc (w ++ s) = PyStr.split_go (acc ++ w) s.
Proof.
  revert acc. induction w as [|c w IH]; intros acc Hw; simpl in *.
  - by rewrite append_nil_r.
  - apply andb_true_iff in Hw as [Hc Hw]. unfold no_space in Hc.
    apply negb_true_iff in Hc. rewrite Hc, IH by done.
    by rewrite snoc_append.
Qed.

Lemma split_nil : PyStr.split "" = [].
Proof. reflexivity. Qed.

(** A non-empty string without whitespace is its own single term. *)
Lemma split_word (w : string) :
  w <> "" -> PyStr.all no_space w = true -> PyStr.split w = [w].
Proof.
  intros Hne Hw. unfold PyStr.split.
  rewrite <- (append_nil_r w) at 1. rewrite split_go_word by done. simpl.
  by destruct w.
Qed.

Lemma split_go_space (acc a : string) (c : ascii) (b : string) :
  PyChar.isspace c = true ->
  PyStr.split_go acc (a ++ String c b)
  = (PyStr.split_go acc a ++ PyStr.split b)%list.
Proof.
  intros Hc. revert acc. induction a as [|d a IH]; intros acc; simpl.
  - rewrite Hc. by destruct (PyStr.is_empty acc).
  - destruct (PyChar.isspace d); [|apply IH].
    destruct (PyStr.is_empty acc); simpl; by rewrite IH.
Qed.

(** Whitespace separates: the terms of [a c b] with [c] a whitespace
    character are the terms of [a] followed by the terms of [b]. *)
Lemma split_space (a : string) (c : ascii) (b : string) :
  PyChar.isspace c = true ->
  PyStr.split (a ++ String c b) = (PyStr.split a ++ PyStr.split b)%list.
Proof. apply split_go_space. Qed.

Lemma split_go_terms (acc s t : string) :
  PyStr.all no_space acc = true ->
  t ∈ PyStr.split_go acc s ->
  t <> "" /\ PyStr.all no_space t = true.
Proof.
  revert acc. induction s as [|c s IH]; intros acc Hacc; simpl.
  - destruct acc as [|x acc]; simpl; [by intros ?%elem_of_nil|].
    intros ->%list_elem_of_singleton. by split.
  - destruct (PyChar.isspace c) eqn:Hc.
    + destruct acc as [|x acc]; simpl.
      * by apply IH.
      * intros [->|Hin]%elem_of_cons; [by split|].
        by apply (IH "").
    + apply IH. rewrite all_snoc, Hacc. unfold no_space. by rewrite Hc.
Qed.

(** Every term of [q.split()] is non-empty and free of whitespace. *)
Lemma split_terms (q t : string) :
  t ∈ PyStr.split q -> t <> "" /\ PyStr.all no_space t = true.
Proof. by apply split_go_terms. Qed.

Lemma rstrip_no_space (t : string) :
  PyStr.all no_space t = true -> PyStr.rstrip_by PyChar.isspace t = t.
Proof.
  induction t as [|c t IH]; simpl; [done|].
  intros [Hc Ht]%andb_true_iff. rewrite IH by done.
  unfold no_space in Hc. apply negb_true_iff in Hc. by rewrite Hc.
Qed.

Lemma strip_no_space (t : string) :
  PyStr.all no_space t = true -> PyStr.strip t = t.
Proof.
  intros Ht. unfold PyStr.strip, PyStr.strip_by.
  assert (PyStr.lstrip_by PyChar.isspace t = t) as ->.
  { destruct t as [|c t]; simpl in *; [done|].
    apply andb_true_iff in Ht as [Hc _]. unfold no_space in Hc.
    apply negb_true_iff in Hc. by rewrite Hc. }
  by apply rstrip_no_space.
Qed.

(** The guard [if t.strip()] keeps every term of [q.split()]. *)
Lemma split_terms_kept (q : string) :
  filter (fun t => PyStr.truthy (PyStr.strip t) = true) (PyStr.split q)
  = PyStr.split q.
Proof.
  apply filter_all. intros t Ht.
  apply split_terms in Ht as [Hne Hns].
  rewrite strip_no_space by done. by destruct t.
Qed.

(** ** Running [ensure_emote_list] *)

(** The guard of [ensure_emote_list], as a boolean. *)
Lemma cache_usable_reflect (now max_age : Z) (c : list_cache) :
  negb (is_nil (tiles c)) && (now - updated_at c <? max_age) = true
  <-> cache_usable now max_age c.
Proof.
  unfold cache_usable. rewrite andb_true_iff, negb_true_iff, Z.ltb_lt.
  destruct (tiles c); simpl; split; intros [? ?]; split; done.
Qed.

(** A usable cache is returned as it is; only the clock was read. *)
Lemma ensure_reuse (E : env) (max_age : Z) (s : state) :
  cache_usable (clock E (clock_reads s)) max_age (emote_list_cache s) ->
  ensure_emote_list E max_age s
  = (Returns tt,
     State (emote_list_cache s) (detail_cache s) (S (clock_reads s))
           (grid_renders s) (page_renders s)).
Proof.
  intros Hu%cache_usable_reflect. unfold ensure_emote_list. unfold_monad.
  simpl. by rewrite Hu.
Qed.

(** Otherwise the grid is rendered once, and the outcome of that render
    decides the result. *)
Lemma ensure_refetch (E : env) (max_age : Z) (s : state) :
  ~ cache_usable (clock E (clock_reads s)) max_age (emote_list_cache s) ->
  ensure_emote_list E max_age s
  = let c := emote_list_cache s in
    let after c' :=
      State c' (detail_cache s) (S (clock_reads s)) (S (grid_renders s))
            (page_renders s) in
    match grid_browser E (grid_renders s) with
    | inl (PlaywrightError ty msg) =>
        (Raises (HTTPException 500
           ("Playwright failed to render emotes list: " ++ ty ++ ": " ++ msg)),
         after c)
    | inl e => (Raises e, after c)
    | inr raw =>
        if is_nil (process_tiles raw)
        then (Raises (HTTPException 502 "Parsed 0 emote tiles after rendering."),
              after (ListCache 0 (tiles c)))
        else (Returns tt,
              after (ListCache (clock E (clock_reads s)) (process_tiles raw)))
    end.
Proof.
  intros Hu. rewrite <- cache_usable_reflect in Hu.
  apply not_true_is_false in Hu.
  unfold ensure_emote_list, fetch_emote_tiles_rendered. unfold_monad.
  simpl. rewrite Hu. simpl.
  destruct (emote_list_cache s) as [upd ts].
  destruct (grid_browser E (grid_renders s)) as [[code d|ty msg|ty msg]|raw];
    simpl; try done.
  by destruct (process_tiles raw).
Qed.

(** ** Search *)

Lemma search_tiles_spec (q : string) (ts : list tile) (t : tile) :
  t ∈ search_tiles q ts
  <-> t ∈ ts /\ forall term, term ∈ PyStr.split q -> term_matches term (name t).
Proof.
  unfold search_tiles. destruct (PyStr.truthy q) eqn:Hq.
  - rewrite split_terms_kept, list_elem_of_filter, forallb_forall.
    split; intros [H1 H2]; split; try done.
    + intros term Hterm. apply contains_spec, H1, list_elem_of_In.
      by apply list_elem_of_fmap_2.
    + intros x [term [-> Hterm]]%list_elem_of_In%list_elem_of_fmap.
      by apply contains_spec, H2.
  - destruct q; [|done]. split; [|by intros [? _]].
    intros Ht. split; [done|]. by intros term ?%elem_of_nil.
Qed.

Lemma search_tiles_empty_query (ts : list tile) : search_tiles "" ts = ts.
Proof. reflexivity. Qed.

Lemma search_tiles_sublist (q : string) (ts : list tile) :
  search_tiles q ts `sublist_of` ts.
Proof.
  unfold search_tiles. destruct (PyStr.truthy q); [apply sublist_filter | done].
Qed.

(** What a returning call of [api_emotes] returns. *)
Lemma api_emotes_returns (E : env) (q : string) (limit : Z) (s s' : state)
    (r : emotes_response) :
  api_emotes E q limit s = (Returns r, s') ->
  ensure_emote_list E default_max_age s = (Returns tt, s') /\
  r = {| count := length (search_tiles q (tiles (emote_list_cache s')));
         updatedAt := updated_at (emote_list_cache s');
         items := PyList.slice_to limit
                    (search_tiles q (tiles (emote_list_cache s'))) |}.
Proof.
  unfold api_emotes. unfold_monad.
  destruct (ensure_emote_list E default_max_age s) as [[[]|e] s1]; simpl;
    intros [= <- <-]; done.
Qed.

(** A successful refetch stores the processed tiles with the time read at
    the start of the call. *)
Lemma ensure_stores_processed (E : env) (max_age : Z) (s : state)
    (raw : list raw_tile) :
  ~ cache_usable (clock E (clock_reads s)) max_age (emote_list_cache s) ->
  grid_browser E (grid_renders s) = inr raw ->
  process_tiles raw <> [] ->
  exists s',
    ensure_emote_list E max_age s = (Returns tt, s') /\
    emote_list_cache s'
    = ListCache (clock E (clock_reads s)) (process_tiles raw).
Proof.
  intros Hu Hgrid Hne. rewrite ensure_refetch by done. simpl.
  rewrite Hgrid. destruct (process_tiles raw); [done|]. by eexists.
Qed.

(** The normalisation and the conjunctive search on the sample names. *)
Example norm_golden_goat :
  norm "Golden Goat" = "goldengoat" /\ norm "GOLDEN-GOAT" = "goldengoat" /\
  norm "goldengoat" = "goldengoat".
Proof. by vm_compute. Qed.

Example search_and_semantics :
  let goat := Tile "Golden Goat" None in
  let frog := Tile "Golden Frog" None in
  search_tiles "golden goat" [frog; goat] = [goat] /\
  search_tiles "goat golden" [frog; goat] = [goat] /\
  search_tiles "GOLDEN-GOAT" [frog; goat] = [goat] /\
  search_tiles "golden" [frog; goat] = [frog; goat] /\
  search_tiles "  " [frog; goat] = [frog; goat].
Proof. by vm_compute. Qed.

Example staleness_boundary :
  let c := ListCache 1000 [Tile "Golden Goat" None] in
  cache_usable (1000 + 3599) 3600 c /\ ~ cache_usable (1000 + 3601) 3600 c.
Proof.
  unfold cache_usable. simpl. split; [split; [done | lia]|].
  intros [_ Hlt]. lia.
Qed.

(** ** Forced refresh *)

(** The state in which [api_refresh] calls [ensure_emote_list]. *)
Lemma api_refresh_unfold (E : env) (s : state) :
  api_refresh E s
  = match ensure_emote_list E 0
            (State (ListCache 0 []) (detail_cache s) (clock_reads s)
                   (grid_renders s) (page_renders s)) with
    | (Returns _, s1) =>
        (Returns {| ok := true;
                    r_count := length (tiles (emote_list_cache s1));
                    r_updatedAt := updated_at (emote_list_cache s1) |}, s1)
    | (Raises e, s1) => (Raises e, s1)
    end.
Proof.
  unfold api_refresh. unfold_monad. simpl.
  by destruct (ensure_emote_list E 0 _) as [[[]|e] s1].
Qed.

Lemma empty_cache_not_usable (now max_age upd : Z) :
  ~ cache_usable now max_age (ListCache upd []).
Proof. by intros [? _]. Qed.

(** ** The claims about the list cache and the search handler *)

(** ** The model's helpers against the specification's notions *)

Lemma isspace_is_whitespace (c : ascii) :
  PyChar.isspace c = bool_decide (is_whitespace c).
Proof.
  destruct c as [b0 b1 b2 b3 b4 b5 b6 b7].
  destruct b0, b1, b2, b3, b4, b5, b6, b7; vm_compute; reflexivity.
Qed.

Lemma isspace_true (c : ascii) : PyChar.isspace c = true <-> is_whitespace c.
Proof. rewrite isspace_is_whitespace. apply bool_decide_eq_true. Qed.

Lemma isspace_false (c : ascii) : PyChar.isspace c = false <-> ~ is_whitespace c.
Proof. rewrite isspace_is_whitespace. apply bool_decide_eq_false. Qed.

Lemma no_space_whitespace_free (s : string) :
  PyStr.all no_space s = true <-> whitespace_free s.
Proof.
  unfold whitespace_free. induction s as [|c s IH]; simpl; [done|].
  rewrite andb_true_iff, IH. unfold no_space.
  by rewrite negb_true_iff, isspace_false.
Qed.

Lemma normalised_char_spec (c : ascii) :
  normalised_char c
  = if PyChar.in_az09 (PyChar.lower c) then Some (PyChar.lower c) else None.
Proof.
  destruct c as [b0 b1 b2 b3 b4 b5 b6 b7].
  destruct b0, b1, b2, b3, b4, b5, b6, b7; vm_compute; reflexivity.
Qed.

(** [norm] computes the normalisation. *)
Lemma norm_normalised (s : string) : norm s = normalised s.
Proof.
  unfold norm, PyStr.lower. induction s as [|c s IH]; simpl; [done|].
  rewrite normalised_char_spec, IH.
  by destruct (PyChar.in_az09 (PyChar.lower c)).
Qed.

Lemma split_go_is_term (s acc pre t : string) :
  PyStr.all no_space acc = true ->
  pre = "" \/ ends_with_whitespace pre ->
  t ∈ PyStr.split_go acc s ->
  is_term_of (pre ++ acc ++ s) t.
Proof.
  revert acc pre t. induction s as [|c s IH]; intros acc pre t Hacc Hpre; simpl.
  - destruct acc as [|x acc]; simpl; [by intros ?%elem_of_nil|].
    intros ->%list_elem_of_singleton.
    split; [done|]. split; [by apply no_space_whitespace_free|].
    exists pre, "". split; [done|]. split; [done | by left].
  - destruct (PyChar.isspace c) eqn:Hc.
    + assert (forall t', t' ∈ PyStr.split_go "" s ->
                is_term_of (pre ++ acc ++ String c s) t') as Hrest.
      { intros t' Ht'.
        replace (pre ++ acc ++ String c s)
          with ((pre ++ acc ++ String c "") ++ "" ++ s).
        - apply IH; [done| |done]. right. exists (pre ++ acc), c.
          split; [by rewrite append_assoc | by apply isspace_true].
        - rewrite append_nil_l, !append_assoc. by rewrite append_cons. }
      destruct acc as [|x acc]; simpl; [apply Hrest|].
      intros [->|Hin]%elem_of_cons; [|by apply Hrest].
      split; [done|]. split; [by apply no_space_whitespace_free|].
      exists pre, (String c s). split; [done|]. split; [done|].
      right. by apply isspace_true.
    + intros Ht.
      replace (pre ++ acc ++ String c s) with (pre ++ PyStr.snoc acc c ++ s)
        by by rewrite snoc_append.
      apply IH; [|done|done].
      rewrite all_snoc, Hacc. unfold no_space. by rewrite Hc.
Qed.

(** The elements of [q.split()] are exactly the whitespace-separated terms
    of [q]. *)
Lemma split_is_term (q term : string) :
  term ∈ PyStr.split q <-> is_term_of q term.
Proof.
  split.
  - intros Hterm. apply (split_go_is_term q "" "" term); [done | by left | done].
  - intros (Hne & Hfree%no_space_whitespace_free
            & before & after & -> & Hbefore & Hafter).
    assert (term ∈ PyStr.split (term ++ after)) as Htail.
    { destruct Hafter as [->|Hafter].
      - rewrite append_nil_r, split_word by done. by left.
      - destruct after as [|d after]; [done|]. simpl in Hafter.
        rewrite split_space by by apply isspace_true.
        rewrite split_word by done. by left. }
    destruct Hbefore as [->|(p & c & -> & Hc)]; [done|].
    rewrite append_assoc, append_cons, append_nil_l.
    rewrite split_space by by apply isspace_true.
    apply elem_of_app. by right.
Qed.

(** C1. For every query [q] and every stored tile, a returning
    [GET /api/emotes] builds its response from a match set that contains
    the tile iff, for every whitespace-separated term of [q] (a maximal
    non-empty block of non-whitespace characters), the normalisation of
    the term (lowercased, every character outside [[a-z0-9]] removed) is a
    substring of the normalisation of the tile's name. The terms are taken
    one by one, in any order: with the tiles "Golden Frog" and
    "Golden Goat", the queries "golden goat", "goat golden" and
    "GOLDEN-GOAT" select "Golden Goat" only, and "golden" selects both. *)
Theorem api_emotes_match_iff (E : env) (q : string) (limit : Z)
    (s s' : state) (r : emotes_response) :
  api_emotes E q limit s = (Returns r, s') ->
  let stored := tiles (emote_list_cache s') in
  let frog := Tile "Golden Frog" None in
  let goat := Tile "Golden Goat" None in
  count r = length (search_tiles q stored) /\
  items r = PyList.slice_to limit (search_tiles q stored) /\
  (forall t : tile,
     t ∈ search_tiles q stored
     <-> t ∈ stored /\
         forall term, is_term_of q term ->
           Substring (normalised term) (normalised (name t))) /\
  (forall t : tile,
     t ∈ search_tiles q stored
     <-> t ∈ stored /\
         forall term, term ∈ PyStr.split q ->
           Substring (norm term) (norm (name t))) /\
  search_tiles "golden goat" [frog; goat] = [goat] /\
  search_tiles "goat golden" [frog; goat] = [goat] /\
  search_tiles "GOLDEN-GOAT" [frog; goat] = [goat] /\
  search_tiles "golden" [frog; goat] = [frog; goat].
Proof.
  intros [_ ->]%api_emotes_returns. cbv zeta. simpl count. simpl items.
  split; [done|]. split; [done|]. split; [|split].
  - intros t. rewrite search_tiles_spec. unfold term_matches.
    split; intros [Ht Hall]; (split; [done|]); intros term Hterm.
    + rewrite <- !norm_normalised. by apply Hall, split_is_term.
    + rewrite !norm_normalised. by apply Hall, split_is_term.
  - intros t. apply search_tiles_spec.
  - by vm_compute.
Qed.

Lemma api_emotes_match_iff_witness :
  exists r s',
    api_emotes sample_env "goat GOLDEN-" 300 initial_state = (Returns r, s') /\
    count r = 1%nat /\
    items r = [Tile "Golden Goat" (Some "https://cdn.example/goat.png")] /\
    forall t : tile,
      t ∈ search_tiles "goat GOLDEN-" (tiles (emote_list_cache s'))
      <-> t ∈ tiles (emote_list_cache s') /\
          forall term, is_term_of "goat GOLDEN-" term ->
            Substring (normalised term) (normalised (name t)).
Proof.
  eexists _, _. split; [vm_compute; reflexivity|].
  split; [reflexivity|]. split; [reflexivity|].
  eapply (api_emotes_match_iff sample_env "goat GOLDEN-" 300 initial_state).
  vm_compute; reflexivity.
Defined.

(** C2. [ensure_emote_list] renders nothing iff the cached tile list is
    non-empty and [now - updated_at < max_age]; with an empty tile list it
    always renders, whatever the age. *)
Theorem ensure_refetch_iff (E : env) (max_age : Z) (s : state) :
  let s' := (ensure_emote_list E max_age s).2 in
  let now := clock E (clock_reads s) in
  (grid_renders s' = grid_renders s
   <-> tiles (emote_list_cache s) <> [] /\
       now - updated_at (emote_list_cache s) < max_age) /\
  (tiles (emote_list_cache s) = [] -> grid_renders s' = S (grid_renders s)).
Proof.
  simpl.
  destruct (decide (cache_usable (clock E (clock_reads s)) max_age
                                 (emote_list_cache s))) as [Hu|Hu].
  - rewrite ensure_reuse by done. simpl. split; [done|].
    intros Hnil. by destruct Hu.
  - rewrite ensure_refetch by done. simpl.
    destruct (grid_browser E (grid_renders s)) as [[code d|ty msg|ty msg]|raw];
      simpl; try (split; [split; [lia | done] | done]).
    destruct (is_nil (process_tiles raw)); simpl;
      (split; [split; [lia | done] | done]).
Qed.

(** C3. When the grid renders but yields no tile, [ensure_emote_list]
    raises the 502 error, sets [updated_at] to 0 and leaves the cached tile
    list as it was. *)
Theorem ensure_zero_tiles (E : env) (max_age : Z) (s : state)
    (raw : list raw_tile) :
  ~ cache_usable (clock E (clock_reads s)) max_age (emote_list_cache s) ->
  grid_browser E (grid_renders s) = inr raw ->
  process_tiles raw = [] ->
  exists s',
    ensure_emote_list E max_age s
    = (Raises (HTTPException 502 "Parsed 0 emote tiles after rendering."), s') /\
    updated_at (emote_list_cache s') = 0 /\
    tiles (emote_list_cache s') = tiles (emote_list_cache s).
Proof.
  intros Hu Hgrid Hzero. rewrite ensure_refetch by done. simpl.
  rewrite Hgrid, Hzero. simpl. by eexists.
Qed.

Lemma ensure_zero_tiles_witness :
  exists s',
    ensure_emote_list empty_grid_env default_max_age stale_state
    = (Raises (HTTPException 502 "Parsed 0 emote tiles after rendering."), s') /\
    updated_at (emote_list_cache s') = 0 /\
    tiles (emote_list_cache s') = [Tile "Old Emote" None].
Proof.
  apply (ensure_zero_tiles empty_grid_env default_max_age stale_state
           [RawTile (Some " ") None]).
  - unfold cache_usable. vm_compute. intros [_ Hlt]. discriminate Hlt.
  - reflexivity.
  - vm_compute. reflexivity.
Defined.

(** C4. When the grid render fails in the rendering layer,
    [ensure_emote_list] raises the 500 error and changes neither the
    cached tile list nor [updated_at]. *)
Theorem ensure_render_failure (E : env) (max_age : Z) (s : state)
    (ty msg : string) :
  ~ cache_usable (clock E (clock_reads s)) max_age (emote_list_cache s) ->
  grid_browser E (grid_renders s) = inl (PlaywrightError ty msg) ->
  exists s',
    ensure_emote_list E max_age s
    = (Raises (HTTPException 500
         ("Playwright failed to render emotes list: " ++ ty ++ ": " ++ msg)),
       s') /\
    emote_list_cache s' = emote_list_cache s.
Proof.
  intros Hu Hgrid. rewrite ensure_refetch by done. simpl.
  rewrite Hgrid. by eexists.
Qed.

Lemma ensure_render_failure_witness :
  exists s',
    ensure_emote_list failing_env default_max_age stale_state
    = (Raises (HTTPException 500
         "Playwright failed to render emotes list: TimeoutError: Timeout 60000ms exceeded."),
       s') /\
    emote_list_cache s' = ListCache 5 [Tile "Old Emote" None].
Proof.
  apply (ensure_render_failure failing_env default_max_age stale_state
           "TimeoutError" "Timeout 60000ms exceeded.").
  - unfold cache_usable. vm_compute. intros [_ Hlt]. discriminate Hlt.
  - reflexivity.
Defined.

(** C8. In the response of [GET /api/emotes], an empty query matches every
    cached tile, [count] is the number of matching tiles before truncation,
    and [items] is the first [limit] matching tiles in the stored order:
    the matching tiles are a subsequence of the cache, and another [limit]
    gives the same [count]. *)
Theorem api_emotes_count_and_order (E : env) (q : string) (limit : Z)
    (s s' : state) (r : emotes_response) :
  1 <= limit <= 2000 ->
  api_emotes E q limit s = (Returns r, s') ->
  let stored := tiles (emote_list_cache s') in
  let matched := search_tiles q stored in
  (q = "" -> matched = stored) /\
  count r = length matched /\
  items r = take (Z.to_nat limit) matched /\
  matched `sublist_of` stored /\
  (forall limit2 r2 s2,
      api_emotes E q limit2 s = (Returns r2, s2) ->
      count r2 = count r /\ items r2 = PyList.slice_to limit2 matched).
Proof.
  intros Hlimit Hrun.
  destruct (api_emotes_returns _ _ _ _ _ _ Hrun) as [Hens ->]. simpl.
  split; [by intros ->|]. split; [done|]. split.
  { unfold PyList.slice_to. by rewrite (proj2 (Z.ltb_ge limit 0)) by lia. }
  split; [apply search_tiles_sublist|].
  intros limit2 r2 s2 Hrun2.
  destruct (api_emotes_returns _ _ _ _ _ _ Hrun2) as [Hens2 ->]. simpl.
  rewrite Hens in Hens2. by injection Hens2 as <-.
Qed.

Lemma api_emotes_count_and_order_witness :
  exists r s',
    api_emotes sample_env "golden" 1 initial_state = (Returns r, s') /\
    count r = 2%nat /\
    items r = [Tile "Golden Frog" None].
Proof.
  eexists _, _. split; [vm_compute; reflexivity|].
  destruct (api_emotes_count_and_order sample_env "golden" 1 initial_state _ _
              ltac:(lia) eq_refl) as (_ & Hcount & Hitems & _).
  split; [exact Hcount | exact Hitems].
Defined.

(** C10. [POST /api/refresh] empties the tile list and zeroes [updated_at]
    before it refetches, and always renders; when that refetch fails (an
    exception of the browser session, or zero tiles) the call ends with an
    empty list cache whose [updated_at] is 0, whereas the render failure of
    a staleness-triggered refresh leaves the list cache as it was. *)
Theorem refresh_failure_empties_cache (E : env) (s : state) :
  (exists e, grid_browser E (grid_renders s) = inl e) \/
  (exists raw, grid_browser E (grid_renders s) = inr raw /\
               process_tiles raw = []) ->
  (exists e s',
      api_refresh E s = (Raises e, s') /\
      emote_list_cache s' = ListCache 0 [] /\
      grid_renders s' = S (grid_renders s)) /\
  (forall max_age ty msg,
      ~ cache_usable (clock E (clock_reads s)) max_age (emote_list_cache s) ->
      grid_browser E (grid_renders s) = inl (PlaywrightError ty msg) ->
      emote_list_cache (ensure_emote_list E max_age s).2 = emote_list_cache s).
Proof.
  intros Hfail. split.
  - rewrite api_refresh_unfold.
    rewrite ensure_refetch by apply empty_cache_not_usable. simpl.
    destruct Hfail as [[e ->] | (raw & -> & ->)]; simpl.
    + destruct e; by eexists _, _.
    + by eexists _, _.
  - intros max_age ty msg Hu Hgrid.
    rewrite ensure_refetch by done. simpl. by rewrite Hgrid.
Qed.

Lemma refresh_failure_empties_cache_witness :
  exists e s',
    api_refresh failing_env stale_state = (Raises e, s') /\
    emote_list_cache s' = ListCache 0 [] /\
    emote_list_cache (ensure_emote_list failing_env default_max_age stale_state).2
    = ListCache 5 [Tile "Old Emote" None].
Proof.
  destruct (refresh_failure_empties_cache failing_env stale_state) as [Hlost Hkept].
  - left. eexists. reflexivity.
  - destruct Hlost as (e & s' & Hrun & Hcache & _).
    exists e, s'. split; [exact Hrun|]. split; [exact Hcache|].
    apply (Hkept default_max_age "TimeoutError" "Timeout 60000ms exceeded.").
    + unfold cache_usable. vm_compute. intros [_ Hlt]. discriminate Hlt.
    + reflexivity.
Defined.

(** ** The stable sort *)

Section SortByKeyFacts.
Context {A : Type} (key : A -> string).

Lemma leb_false_flip (a b : string) :
  String.leb a b = false -> String.le b a /\ a <> b.
Proof.
  intros Hab. split.
  - destruct (total String.le a b) as [Hle|Hle]; [|done].
    apply Is_true_true in Hle. congruence.
  - intros ->. assert (String.le b b) as Hle by done.
    apply Is_true_true in Hle. congruence.
Qed.

Lemma insert_by_key_perm (x : A) (l : list A) :
  insert_by_key key x l ≡ₚ x :: l.
Proof.
  induction l as [|y l IH]; simpl; [done|].
  destruct (String.leb (key x) (key y)); [done|].
  rewrite IH. apply Permutation_swap.
Qed.

Lemma sort_by_key_perm (l : list A) : sort_by_key key l ≡ₚ l.
Proof.
  induction l as [|x l IH]; simpl; [done|].
  by rewrite insert_by_key_perm, IH.
Qed.

Lemma insert_by_key_sorted (x : A) (l : list A) :
  StronglySorted (key_le key) l ->
  StronglySorted (key_le key) (insert_by_key key x l).
Proof.
  induction 1 as [|y l Hsorted IH Hy]; simpl.
  - repeat constructor.
  - destruct (String.leb (key x) (key y)) eqn:Hxy.
    + constructor; [by constructor|].
      apply Is_true_true in Hxy. constructor; [done|].
      eapply Forall_impl; [exact Hy|].
      intros z Hz. unfold key_le in *. by etrans.
    + apply leb_false_flip in Hxy as [Hyx _].
      constructor; [done|].
      rewrite insert_by_key_perm. by constructor.
Qed.

Lemma sort_by_key_sorted (l : list A) :
  StronglySorted (key_le key) (sort_by_key key l).
Proof.
  induction l as [|x l IH]; simpl; [constructor|].
  by apply insert_by_key_sorted.
Qed.



End SortByKeyFacts.

(** ** De-duplication *)

Lemma filter_names_sublist (P : tile -> Prop) `{!forall t, Decision (P t)}
    (l : list tile) :
  name <$> filter P l `sublist_of` name <$> l.
Proof. apply fmap_sublist, sublist_filter. Qed.

Lemma keep_first_names_NoDup (l : list tile) : NoDup (name <$> keep_first l).
Proof.
  induction l as [|t l IH]; simpl; [constructor|].
  constructor.
  - intros (u & Hname & Hu)%list_elem_of_fmap.
    apply list_elem_of_filter in Hu as [Hne _]. congruence.
  - eapply sublist_NoDup; [exact IH | apply filter_names_sublist].
Qed.

Lemma keep_first_subseteq (l : list tile) (t : tile) :
  t ∈ keep_first l -> t ∈ l.
Proof.
  induction l as [|u l IH]; simpl; [done|].
  intros [->|Hin]%elem_of_cons; [by left|].
  apply list_elem_of_filter in Hin as [_ Hin]. right. by apply IH.
Qed.

Lemma tile_name_empty (t : raw_tile) :
  PyStr.is_empty (tile_name t) = true <-> tile_name t = "".
Proof. by destruct (tile_name t). Qed.

(** The loop with its [seen] set computes the first occurrences, among the
    stripped non-empty names, of the names not seen before. *)
Lemma dedup_loop_spec (seen : gset string) (out : list tile)
    (raw : list raw_tile) :
  dedup_loop seen out raw
  = (out ++ filter (fun t => name t ∉ seen)
                   (keep_first (named (trimmed_tile <$> raw))))%list.
Proof.
  revert seen out. induction raw as [|t raw IH]; intros seen out.
  - simpl. by rewrite app_nil_r.
  - unfold named in *. rewrite fmap_cons, filter_cons. simpl.
    destruct (PyStr.is_empty (tile_name t)) eqn:Hempty; simpl.
    + apply tile_name_empty in Hempty.
      rewrite decide_False by (intros Hne; by apply Hne). apply IH.
    + assert (tile_name t <> "") as Hne.
      { intros Heq%tile_name_empty. congruence. }
      rewrite decide_True by done. simpl. rewrite filter_cons. simpl.
      rewrite list_filter_filter.
      destruct (bool_decide (tile_name t ∈ seen)) eqn:Hseen.
      * apply bool_decide_eq_true in Hseen.
        rewrite decide_False by (intros Hn; by apply Hn).
        rewrite IH. f_equal. apply list_filter_iff.
        intros u. split; [|by intros [? _]]. intros Hu. split; [done|].
        intros Heq. apply Hu. by rewrite Heq.
      * apply bool_decide_eq_false in Hseen.
        rewrite decide_True by done.
        rewrite IH, <- app_assoc. simpl. do 2 f_equal.
        apply list_filter_iff. intros u.
        rewrite not_elem_of_union, not_elem_of_singleton. tauto.
Qed.

Lemma process_tiles_trimmed (raw : list raw_tile) :
  process_tiles raw = stored_trimmed raw.
Proof.
  unfold process_tiles, stored_trimmed. rewrite dedup_loop_spec. simpl.
  f_equal. apply filter_all. intros t _. set_solver.
Qed.



(** ** Detail extraction *)

Lemma mem_spec (x : string) (l : list string) :
  PyList.mem x l = true <-> x ∈ l.
Proof.
  unfold PyList.mem. rewrite existsb_exists. split.
  - intros (y & Hy & ->%String.eqb_eq). by apply list_elem_of_In.
  - intros Hx. exists x. split; [by apply list_elem_of_In|].
    apply String.eqb_refl.
Qed.

Lemma line_at_lookup (lines : list string) (k : nat) :
  line_at lines k = lines !! k.
Proof.
  unfold line_at. destruct (decide (k < length lines)%nat); [done|].
  symmetry. apply lookup_ge_None. lia.
Qed.

(** [l.index(x, start)] returns the first position of [x] from [start]. *)
Lemma index_from_Some (x : string) (start : nat) (l : list string) (i : nat) :
  PyList.index_from x start l = Some i <-> first_index_from x start l i.
Proof.
  unfold first_index_from.
  revert start i. induction l as [|y l IH]; intros start i; simpl.
  - split; [done|]. by intros (_ & ? & _).
  - destruct start as [|k].
    + destruct (String.eqb_spec y x) as [->|Hne].
      * split.
        -- intros [= <-]. split; [lia|]. split; [done|]. intros j ?; lia.
        -- intros (_ & Hi & Hfirst). destruct i as [|i]; [done|].
           destruct (Hfirst 0%nat); [lia | done].
      * rewrite fmap_Some. split.
        -- intros (i' & (_ & Hi' & Hfirst)%IH & ->).
           split; [lia|]. split; [done|].
           intros [|j] Hj; simpl; [congruence|]. apply Hfirst. lia.
        -- intros (_ & Hi & Hfirst). destruct i as [|i]; simpl in Hi.
           { congruence. }
           exists i. split; [|done]. apply IH. split; [lia|]. split; [done|].
           intros j Hj. apply (Hfirst (S j)). lia.
    + rewrite fmap_Some. split.
      * intros (i' & (Hle & Hi' & Hfirst)%IH & ->).
        split; [lia|]. split; [done|].
        intros [|j] Hj; [lia|]. simpl. apply Hfirst. lia.
      * intros (Hle & Hi & Hfirst). destruct i as [|i]; [lia|].
        exists i. split; [|done]. apply IH. split; [lia|]. split; [done|].
        intros j Hj. apply (Hfirst (S j)). lia.
Qed.

Lemma index_from_None (x : string) (start : nat) (l : list string) :
  PyList.index_from x start l = None
  <-> forall j, (start <= j)%nat -> l !! j <> Some x.
Proof.
  revert start. induction l as [|y l IH]; intros start; simpl.
  - split; [by intros _ j _|done].
  - destruct start as [|k].
    + destruct (String.eqb_spec y x) as [->|Hne].
      * split; [done|]. intros Hall. destruct (Hall 0%nat); [lia|done].
      * rewrite fmap_None, IH. split.
        -- intros Hall [|j] _; simpl; [congruence|]. apply Hall. lia.
        -- intros Hall j _. apply (Hall (S j)). lia.
    + rewrite fmap_None, IH. split.
      * intros Hall [|j] Hj; [lia|]. simpl. apply Hall. lia.
      * intros Hall j Hj. apply (Hall (S j)). lia.
Qed.

Lemma first_index_from_unique (x : string) (start : nat) (l : list string)
    (i j : nat) :
  first_index_from x start l i -> first_index_from x start l j -> i = j.
Proof. intros Hi%index_from_Some Hj%index_from_Some. congruence. Qed.

Lemma expires_from_found (lines : list string) (start e : nat) :
  first_index_from "Expires:" start lines e ->
  expires_from lines start = lines !! (e + 1)%nat.
Proof.
  intros He%index_from_Some. unfold expires_from.
  by rewrite He, line_at_lookup.
Qed.

Lemma expires_from_absent (lines : list string) (start : nat) :
  (forall j, (start <= j)%nat -> lines !! j <> Some "Expires:") ->
  expires_from lines start = None.
Proof. intros Habs%index_from_None. unfold expires_from. by rewrite Habs. Qed.

(** Every flattened line is non-blank. *)
Lemma flat_lines_nonblank (doc : html) (x : string) :
  x ∈ flat_lines doc -> x <> "".
Proof.
  unfold flat_lines. intros (y & -> & Hy)%list_elem_of_fmap.
  apply list_elem_of_filter in Hy as [Hy _].
  intros Heq. by rewrite Heq in Hy.
Qed.

Section DetailsFacts.
Variable urlparse_path : string -> option string.

(** The three positional fields in terms of the flattened lines. *)
Lemma parse_fields_name_found (emote_name : string) (doc : html) (i : nat) :
  first_index_from emote_name 0 (flat_lines doc) i ->
  let d := parse_emote_details urlparse_path emote_name doc in
  source d = flat_lines doc !! (i + 2)%nat /\
  tier d = flat_lines doc !! (i + 3)%nat /\
  expires d = expires_from (flat_lines doc) i.
Proof.
  intros Hi. pose proof Hi as Hidx%index_from_Some.
  assert (PyList.mem emote_name (flat_lines doc) = true) as Hmem.
  { apply mem_spec. destruct Hi as (_ & Hi & _).
    by eapply list_elem_of_lookup_2. }
  unfold parse_emote_details.
  destruct (first_labelled (select_twitch doc)) as [url lbl].
  rewrite Hmem, Hidx. simpl. by rewrite !line_at_lookup.
Qed.

Lemma parse_fields_name_absent (emote_name : string) (doc : html) :
  emote_name ∉ flat_lines doc ->
  let d := parse_emote_details urlparse_path emote_name doc in
  source d = None /\ tier d = None /\
  expires d = expires_from (flat_lines doc) 0.
Proof.
  intros Habs.
  assert (PyList.mem emote_name (flat_lines doc) = false) as Hmem.
  { apply not_true_is_false. by rewrite mem_spec. }
  unfold parse_emote_details.
  destruct (first_labelled (select_twitch doc)) as [url lbl].
  by rewrite Hmem.
Qed.

(** The loop sets the label whenever it sets the link. *)
Lemma first_labelled_both (l : list anchor) :
  (first_labelled l = (None, None)) \/
  (exists a, a ∈ l /\ first_labelled l = (href a, Some (anchor_text a)) /\
             truthy_opt (href a) = true /\ PyStr.truthy (anchor_text a) = true).
Proof.
  induction l as [|a l IH]; simpl; [by left|].
  destruct (truthy_opt (href a) && PyStr.truthy (anchor_text a)) eqn:Hboth.
  - right. exists a. apply andb_true_iff in Hboth as [? ?].
    split; [by left|]. done.
  - destruct IH as [IH|(b & Hb & IH)]; [by left|].
    right. exists b. split; [by right|]. done.
Qed.

(** So the fallback block never changes the label. *)
Lemma channel_fallback_unreachable (l : list anchor) :
  channel_fallback urlparse_path (first_labelled l).1 (first_labelled l).2
  = (first_labelled l).2.
Proof.
  destruct (first_labelled_both l) as [->|(a & _ & -> & _ & Htxt)]; simpl.
  - done.
  - unfold channel_fallback. simpl. by rewrite Htxt.
Qed.

Lemma parse_channel (emote_name : string) (doc : html) :
  let d := parse_emote_details urlparse_path emote_name doc in
  channelUrl d = (first_labelled (select_twitch doc)).1 /\
  channel d = (first_labelled (select_twitch doc)).2.
Proof.
  simpl. unfold parse_emote_details.
  pose proof (channel_fallback_unreachable (select_twitch doc)) as Hfb.
  destruct (first_labelled (select_twitch doc)) as [url lbl]. simpl in *.
  destruct (PyList.mem _ _); [destruct (PyList.index_from _ _ _)|]; done.
Qed.

Lemma parse_not_found (emote_name : string) (doc : html) :
  notFound (parse_emote_details urlparse_path emote_name doc)
  = PyStr.contains "Emote not found"
      (PyStr.join (String PyChar.LF EmptyString) (flat_lines doc)).
Proof.
  unfold parse_emote_details.
  destruct (first_labelled (select_twitch doc)) as [url lbl].
  destruct (PyList.mem _ _); [destruct (PyList.index_from _ _ _)|]; done.
Qed.

End DetailsFacts.

(** C5, as amended. Let [i] be the first index at which the requested name
    occurs among the flattened non-blank lines. Then [source] is the line
    at [i+2] and [tier] the line at [i+3] when those indices exist, and
    null otherwise; [expires] is the line that follows the first
    ["Expires:"] line at an index >= [i] when there is such a following
    line, and null otherwise. When the name does not occur, [source] and
    [tier] are null and the search for ["Expires:"] starts at the first
    line. The six-line example yields [source = "Sub Gift"],
    [tier = "Tier 3"], [expires = "2025-01-01"], [notFound = false]. *)
Theorem parse_details_positional (urlparse_path : string -> option string)
    (emote_name : string) (doc : html) :
  let lines := flat_lines doc in
  let d := parse_emote_details urlparse_path emote_name doc in
  (forall i, first_index_from emote_name 0 lines i ->
     source d = lines !! (i + 2)%nat /\
     tier d = lines !! (i + 3)%nat /\
     (forall e, first_index_from "Expires:" i lines e ->
                expires d = lines !! (e + 1)%nat) /\
     ((forall j, (i <= j)%nat -> lines !! j <> Some "Expires:") ->
      expires d = None)) /\
  (emote_name ∉ lines ->
     source d = None /\ tier d = None /\
     (forall e, first_index_from "Expires:" 0 lines e ->
                expires d = lines !! (e + 1)%nat) /\
     ((forall j, lines !! j <> Some "Expires:") -> expires d = None)) /\
  (let d6 := parse_emote_details urlparse_path "Golden Goat"
               (document_of six_lines) in
   flat_lines (document_of six_lines) = six_lines /\
   source d6 = Some "Sub Gift" /\ tier d6 = Some "Tier 3" /\
   expires d6 = Some "2025-01-01" /\ notFound d6 = false).
Proof.
  cbv zeta. split; [|split].
  - intros i Hi.
    destruct (parse_fields_name_found urlparse_path emote_name doc i Hi)
      as (Hsource & Htier & Hexpires).
    split; [done|]. split; [done|]. rewrite Hexpires. split.
    + intros e He. by apply expires_from_found.
    + intros Habs. by apply expires_from_absent.
  - intros Habs.
    destruct (parse_fields_name_absent urlparse_path emote_name doc Habs)
      as (Hsource & Htier & Hexpires).
    split; [done|]. split; [done|]. rewrite Hexpires. split.
    + intros e He. by apply expires_from_found.
    + intros Hnone. apply expires_from_absent. intros j _. apply Hnone.
  - assert (flat_lines (document_of six_lines) = six_lines) as Hlines
      by (vm_compute; reflexivity).
    split; [exact Hlines|].
    destruct (parse_fields_name_found urlparse_path "Golden Goat"
                (document_of six_lines) 0) as (Hsource & Htier & Hexpires).
    { apply index_from_Some. rewrite Hlines. reflexivity. }
    rewrite Hlines in Hsource, Htier, Hexpires.
    split; [exact Hsource|]. split; [exact Htier|]. split; [exact Hexpires|].
    rewrite parse_not_found, Hlines. vm_compute. reflexivity.
Qed.

(** C5, as stated, fails when the name occurs more than once: the fields
    are read relative to the first occurrence, not to a later one. *)
Lemma later_occurrence_not_used :
  let doc := document_of
    ["Golden Goat"; "Golden Goat"; "SomeChannel"; "Sub Gift"; "Tier 3"] in
  let d := parse_emote_details no_urlparse "Golden Goat" doc in
  flat_lines doc !! 1%nat = Some "Golden Goat" /\
  flat_lines doc !! (1 + 2)%nat = Some "Sub Gift" /\
  source d = Some "SomeChannel" /\
  source d <> flat_lines doc !! (1 + 2)%nat.
Proof.
  simpl. split; [vm_compute; reflexivity|].
  split; [vm_compute; reflexivity|].
  split; [vm_compute; reflexivity|].
  vm_compute. discriminate.
Qed.

(** C7, first half: [channelUrl] and [channel] are the link and the text of
    the first streaming-platform hyperlink, in document order, that has
    visible text; both are null when there is none. Second half, at the
    failing input: a page whose only streaming-platform hyperlink has no
    visible text yields a null [channel] (and a null [channelUrl]), whatever
    the path of the link is, although the fallback block alone would derive
    the label from the path. *)
Theorem textless_channel_link_ignored
    (urlparse_path : string -> option string) (emote_name : string) :
  let link := Anchor (Some "https://www.twitch.tv/somechannel") "" in
  let doc := Html [link] "" in
  let d := parse_emote_details urlparse_path emote_name doc in
  select_twitch doc = [link] /\
  channelUrl d = None /\ channel d = None /\
  channel_fallback (fun _ => Some "/somechannel")
    (Some "https://www.twitch.tv/somechannel") None = Some "somechannel" /\
  (forall doc', 
     let d' := parse_emote_details urlparse_path emote_name doc' in
     (channelUrl d', channel d') = first_labelled (select_twitch doc')).
Proof.
  simpl. split; [vm_compute; reflexivity|].
  split; [reflexivity|]. split; [reflexivity|].
  split; [vm_compute; reflexivity|].
  intros doc'. destruct (parse_channel urlparse_path emote_name doc') as [-> ->].
  by destruct (first_labelled _).
Qed.

(** ** Detail fetch *)

(** The enrichment block returns in every case; a failing freshness check
    only turns the image into [None]. *)
Lemma attach_image_run (E : env) (emote_name : string) (d : details)
    (s : state) :
  attach_image E emote_name d s
  = match ensure_emote_list E default_max_age s with
    | (Returns _, s1) =>
        (Returns (DetailRecord d
                    (lookup_image emote_name (tiles (emote_list_cache s1)))),
         s1)
    | (Raises _, s1) => (Returns (DetailRecord d None), s1)
    end.
Proof.
  unfold attach_image. unfold_monad.
  by destruct (ensure_emote_list E default_max_age s) as [[[]|e] s1].
Qed.

Lemma attach_image_total (E : env) (emote_name : string) (d : details)
    (s : state) :
  exists img s', attach_image E emote_name d s = (Returns (DetailRecord d img), s').
Proof.
  rewrite attach_image_run.
  destruct (ensure_emote_list E default_max_age s) as [[[]|e] s1];
    by eexists _, _.
Qed.

(** C9. In a detail fetch that is not served from the detail cache and
    whose details page renders, a failure of the enrichment step (the
    freshness check of the list cache raising any exception) does not fail
    the request: the returned record has [imageUrl = null] and its other
    fields are those parsed from the page. The enrichment block itself
    never raises. *)
Theorem detail_enrichment_failure_swallowed (E : env)
    (urlparse_path : string -> option string) (emote_name : string)
    (s s1 s2 s3 : state) (doc : html) (e : exn) :
  cached_detail E emote_name s = (Returns None, s1) ->
  render_details E emote_name s1 = (Returns doc, s2) ->
  ensure_emote_list E default_max_age s2 = (Raises e, s3) ->
  let d := parse_emote_details urlparse_path emote_name doc in
  (exists s',
      api_emote_detail E urlparse_path emote_name s
      = (Returns {| parsed := d; d_imageUrl := None |}, s')) /\
  (forall d0 s0, exists img s',
      attach_image E emote_name d0 s0 = (Returns (DetailRecord d0 img), s')).
Proof.
  intros Hcached Hrender Hensure. cbv zeta. split.
  - unfold api_emote_detail. unfold mbind, M_bind, bind.
    rewrite Hcached, Hrender, attach_image_run, Hensure.
    unfold_monad. simpl. by eexists.
  - intros d0 s0. apply attach_image_total.
Qed.

Lemma detail_enrichment_failure_swallowed_witness :
  exists s',
    api_emote_detail failing_env no_urlparse "Golden Goat" initial_state
    = (Returns
         {| parsed := parse_emote_details no_urlparse "Golden Goat"
                        (document_of six_lines);
            d_imageUrl := None |}, s').
Proof.
  destruct (detail_enrichment_failure_swallowed failing_env no_urlparse
              "Golden Goat" initial_state initial_state
              (State (ListCache 0 []) ∅ 0 0 1)
              (State (ListCache 0 []) ∅ 1 1 1)
              (document_of six_lines)
              (HTTPException 500
                 "Playwright failed to render emotes list: TimeoutError: Timeout 60000ms exceeded."))
    as [Hrun _].
  - vm_compute. reflexivity.
  - vm_compute. reflexivity.
  - vm_compute. reflexivity.
  - exact Hrun.
Defined.

(** * Further properties of the module *)

(** ** Normalisation *)

Lemma filter_append (p : ascii -> bool) (a b : string) :
  PyStr.filter p (a ++ b) = PyStr.filter p a ++ PyStr.filter p b.
Proof.
  induction a as [|c a IH]; [done|].
  rewrite append_cons. simpl. rewrite IH. by destruct (p c).
Qed.

Lemma map_append (f : ascii -> ascii) (a b : string) :
  PyStr.map f (a ++ b) = PyStr.map f a ++ PyStr.map f b.
Proof.
  induction a as [|c a IH]; [done|].
  rewrite append_cons. simpl. by rewrite IH.
Qed.

Lemma norm_append (a b : string) : norm (a ++ b) = norm a ++ norm b.
Proof. unfold norm, PyStr.lower. by rewrite map_append, filter_append. Qed.

Lemma filter_all_in (p : ascii -> bool) (s : string) :
  PyStr.all p (PyStr.filter p s) = true.
Proof.
  induction s as [|c s IH]; simpl; [done|].
  destruct (p c) eqn:Hc; simpl; [by rewrite Hc|done].
Qed.

(** A character of the class [[a-z0-9]] is its own lowercase. *)
Lemma lower_az09 (c : ascii) :
  PyChar.in_az09 c = true -> PyChar.lower c = c.
Proof.
  destruct c as [b0 b1 b2 b3 b4 b5 b6 b7].
  destruct b0, b1, b2, b3, b4, b5, b6, b7; vm_compute; congruence.
Qed.

Lemma norm_fixed (s : string) :
  PyStr.all PyChar.in_az09 s = true -> norm s = s.
Proof.
  unfold norm, PyStr.lower. induction s as [|c s IH]; simpl; [done|].
  intros [Hc Hs]%andb_true_iff. rewrite (lower_az09 c Hc), Hc.
  by rewrite IH.
Qed.

(** ** The match set as a filter *)

Lemma search_tiles_filter (q : string) (ts : list tile) :
  search_tiles q ts
  = filter (fun t => matches_terms (norm <$> PyStr.split q) t = true) ts.
Proof.
  unfold search_tiles. destruct (PyStr.truthy q) eqn:Hq.
  - by rewrite split_terms_kept.
  - destruct q; [|done]. symmetry. by apply filter_all.
Qed.

Lemma matches_terms_spec (terms : list string) (t : tile) :
  matches_terms terms t = true
  <-> forall term, term ∈ terms -> PyStr.contains term (norm (name t)) = true.
Proof.
  unfold matches_terms. rewrite forallb_forall.
  split; intros Hall term Hterm; apply Hall; by apply list_elem_of_In.
Qed.

Lemma matches_terms_app (l1 l2 : list string) (t : tile) :
  matches_terms (l1 ++ l2)%list t = matches_terms l1 t && matches_terms l2 t.
Proof. unfold matches_terms. apply forallb_app. Qed.

(** X1. [norm] returns only characters of [[a-z0-9]], is idempotent, and
    distributes over concatenation. *)
Theorem norm_normal_form (s : string) :
  PyStr.all PyChar.in_az09 (norm s) = true /\
  norm (norm s) = norm s /\
  (forall a b, norm (a ++ b) = norm a ++ norm b).
Proof.
  assert (PyStr.all PyChar.in_az09 (norm s) = true) as Hall
    by apply filter_all_in.
  split; [done|]. split; [by apply norm_fixed | apply norm_append].
Qed.

(** X2. The match set depends on the query only through the set of its
    normalised terms: two queries whose terms normalise to the same set
    (whatever their order, case, punctuation or repetitions) select the
    same tiles. *)
Theorem search_tiles_normalised_terms (q1 q2 : string) (ts : list tile) :
  (forall x, x ∈ norm <$> PyStr.split q1 <-> x ∈ norm <$> PyStr.split q2) ->
  search_tiles q1 ts = search_tiles q2 ts.
Proof.
  intros Hsame. rewrite !search_tiles_filter. apply list_filter_iff.
  intros t. rewrite !matches_terms_spec.
  split; intros Hall term Hterm; apply Hall; by apply Hsame.
Qed.

Lemma search_tiles_normalised_terms_witness :
  search_tiles "Golden Goat" (process_tiles sample_grid)
  = search_tiles "goat GOLDEN- goat" (process_tiles sample_grid).
Proof.
  apply (search_tiles_normalised_terms "Golden Goat" "goat GOLDEN- goat").
  intros x. vm_compute (norm <$> PyStr.split "Golden Goat").
  vm_compute (norm <$> PyStr.split "goat GOLDEN- goat").
  rewrite !elem_of_cons, !elem_of_nil. tauto.
Defined.

(** X3. Joining two queries with a space intersects their match sets:
    searching for [q1 q2] is searching for [q1] among the matches of [q2];
    searching twice for the same query changes nothing, and the order of
    two searches does not matter. *)
Theorem search_tiles_compose (q1 q2 : string) (ts : list tile) :
  search_tiles (q1 ++ " " ++ q2) ts = search_tiles q1 (search_tiles q2 ts) /\
  search_tiles q1 (search_tiles q1 ts) = search_tiles q1 ts /\
  search_tiles q1 (search_tiles q2 ts) = search_tiles q2 (search_tiles q1 ts).
Proof.
  rewrite !search_tiles_filter.
  assert (" " ++ q2 = String " "%char q2) as -> by done.
  rewrite split_space by done. rewrite fmap_app.
  rewrite !list_filter_filter. split; [|split]; apply list_filter_iff;
    intros t; rewrite ?matches_terms_app, ?andb_true_iff; tauto.
Qed.

(** X4. A term that normalises to the empty string (punctuation only, for
    instance) constrains nothing: when every term of the query does, all
    tiles match. *)
Theorem search_tiles_blank_terms (q : string) (ts : list tile) :
  (forall term, term ∈ PyStr.split q -> norm term = "") ->
  search_tiles q ts = ts.
Proof.
  intros Hblank. rewrite search_tiles_filter. apply filter_all.
  intros t _. apply matches_terms_spec.
  intros x (term & -> & Hterm)%list_elem_of_fmap.
  rewrite (Hblank term Hterm). apply contains_empty.
Qed.

Lemma search_tiles_blank_terms_witness :
  search_tiles "-- !?" (process_tiles sample_grid) = process_tiles sample_grid.
Proof.
  apply (search_tiles_blank_terms "-- !?").
  intros term. vm_compute (PyStr.split "-- !?").
  rewrite !elem_of_cons, elem_of_nil. intros [->|[->|[]]]; reflexivity.
Defined.

(** ** Stripping *)

Lemma lstrip_head (p : ascii -> bool) (s : string) :
  PyStr.lstrip_by p s = "" \/
  exists c r, PyStr.lstrip_by p s = String c r /\ p c = false.
Proof.
  induction s as [|c s IH]; simpl; [by left|].
  destruct (p c) eqn:Hc; [done|]. right. by exists c, s.
Qed.

Lemma rstrip_cons_keep (p : ascii -> bool) (c : ascii) (r : string) :
  p c = false ->
  PyStr.rstrip_by p (String c r) = String c (PyStr.rstrip_by p r).
Proof. intros Hc. simpl. by rewrite Hc. Qed.

Lemma rstrip_idempotent (p : ascii -> bool) (s : string) :
  PyStr.rstrip_by p (PyStr.rstrip_by p s) = PyStr.rstrip_by p s.
Proof.
  induction s as [|c s IH]; simpl; [done|].
  destruct (p c && PyStr.is_empty (PyStr.rstrip_by p s)) eqn:Hdrop; [done|].
  simpl. by rewrite IH, Hdrop.
Qed.

(** [strip] is idempotent. *)
Lemma strip_idempotent (s : string) : PyStr.strip (PyStr.strip s) = PyStr.strip s.
Proof.
  unfold PyStr.strip, PyStr.strip_by.
  destruct (lstrip_head PyChar.isspace s) as [->|(c & r & -> & Hc)]; [done|].
  rewrite rstrip_cons_keep by done. simpl PyStr.lstrip_by. rewrite Hc.
  rewrite rstrip_cons_keep by done. by rewrite rstrip_idempotent.
Qed.

(** ** More on the stable sort and on first occurrences *)

Section SortedFacts.
Context {A : Type} (key : A -> string).



End SortedFacts.


Lemma keep_first_names (l : list tile) (u : tile) :
  u ∈ l -> name u ∈ name <$> keep_first l.
Proof.
  induction l as [|t l IH]; simpl; [by intros ?%elem_of_nil|].
  intros [->|Hu]%elem_of_cons; [by left|].
  destruct (decide (name u = name t)) as [->|Hne]; [by left|]. right.
  apply IH in Hu as (v & Hname & Hv)%list_elem_of_fmap.
  apply list_elem_of_fmap. exists v. split; [done|].
  apply list_elem_of_filter. split; [congruence | done].
Qed.

Lemma keep_first_app_first (a b : list tile) (t : tile) :
  (forall u, u ∈ a -> name u <> name t) -> t ∈ keep_first (a ++ t :: b).
Proof.
  induction a as [|u a IH]; intros Hfresh; simpl; [by left|].
  right. apply list_elem_of_filter. split.
  - intros Heq. apply (Hfresh u); [by left | done].
  - apply IH. intros v Hv. apply Hfresh. by right.
Qed.

Lemma named_trimmed_app (pre post : list raw_tile) (r : raw_tile) :
  tile_name r <> "" ->
  named (trimmed_tile <$> (pre ++ r :: post)%list)
  = (named (trimmed_tile <$> pre)
       ++ trimmed_tile r :: named (trimmed_tile <$> post))%list.
Proof.
  intros Hne. unfold named.
  by rewrite fmap_app, filter_app, fmap_cons, filter_cons_True.
Qed.

Lemma process_tiles_elem (raw : list raw_tile) (t : tile) :
  t ∈ process_tiles raw <-> t ∈ keep_first (named (trimmed_tile <$> raw)).
Proof.
  rewrite process_tiles_trimmed. unfold stored_trimmed.
  by rewrite sort_by_key_perm.
Qed.

Lemma process_tiles_origin (raw : list raw_tile) (t : tile) :
  t ∈ process_tiles raw ->
  trimmed_name (name t) /\ exists r, r ∈ raw /\ t = trimmed_tile r.
Proof.
  intros Ht%process_tiles_elem%keep_first_subseteq.
  apply list_elem_of_filter in Ht as [Hne (r & -> & Hr)%list_elem_of_fmap].
  split; [|by exists r]. split; [done|]. apply strip_idempotent.
Qed.

(** The processed list is well-formed. *)
Lemma process_tiles_wf (raw : list raw_tile) : tiles_wf (process_tiles raw).
Proof.
  split; [|split].
  - rewrite process_tiles_trimmed. unfold stored_trimmed.
    rewrite sort_by_key_perm. apply keep_first_names_NoDup.
  - rewrite process_tiles_trimmed. apply sort_by_key_sorted.
  - apply Forall_forall. intros t Ht. by apply process_tiles_origin in Ht as [? _].
Qed.

Lemma tiles_wf_nil : tiles_wf [].
Proof. split; [constructor|]. split; constructor. Qed.



(** X5. Tile processing invents nothing and loses no name: every stored
    tile is an extracted pair with its name stripped, that name being
    non-empty and free of surrounding whitespace; and an extracted pair
    whose stripped name is non-empty and differs from the stripped names
    of all earlier pairs is stored, with its own image. *)
Theorem process_tiles_sound_complete (raw : list raw_tile) :
  (forall t, t ∈ process_tiles raw ->
     trimmed_name (name t) /\ exists r, r ∈ raw /\ t = trimmed_tile r) /\
  (forall pre r post,
     raw = (pre ++ r :: post)%list ->
     tile_name r <> "" ->
     (forall r', r' ∈ pre -> tile_name r' <> tile_name r) ->
     Tile (tile_name r) (raw_imageUrl r) ∈ process_tiles raw).
Proof.
  split; [intros t; apply process_tiles_origin|].
  intros pre r post -> Hne Hfresh. apply process_tiles_elem.
  rewrite named_trimmed_app by done. apply keep_first_app_first.
  intros u [_ (r' & -> & Hr')%list_elem_of_fmap]%list_elem_of_filter.
  simpl. by apply Hfresh.
Qed.


(** ** Running the handlers *)

Lemma ensure_frame (E : env) (max_age : Z) (s : state) :
  let s' := (ensure_emote_list E max_age s).2 in
  detail_cache s' = detail_cache s /\
  page_renders s' = page_renders s /\
  clock_reads s' = S (clock_reads s).
Proof.
  simpl.
  destruct (decide (cache_usable (clock E (clock_reads s)) max_age
                                 (emote_list_cache s))) as [Hu|Hu].
  - by rewrite ensure_reuse.
  - rewrite ensure_refetch by done. simpl.
    destruct (grid_browser E (grid_renders s)) as [[code d|ty msg|ty msg]|raw];
      try done.
    by destruct (is_nil (process_tiles raw)).
Qed.

(** The list cache after a call of [ensure_emote_list]. *)
Lemma ensure_list_cache (E : env) (max_age : Z) (s : state) :
  let c := emote_list_cache s in
  let c' := emote_list_cache (ensure_emote_list E max_age s).2 in
  c' = c \/ c' = ListCache 0 (tiles c) \/
  exists raw, grid_browser E (grid_renders s) = inr raw /\
              process_tiles raw <> [] /\
              c' = ListCache (clock E (clock_reads s)) (process_tiles raw).
Proof.
  simpl.
  destruct (decide (cache_usable (clock E (clock_reads s)) max_age
                                 (emote_list_cache s))) as [Hu|Hu].
  - rewrite ensure_reuse by done. by left.
  - rewrite ensure_refetch by done. simpl.
    destruct (grid_browser E (grid_renders s)) as [[code d|ty msg|ty msg]|raw];
      try by left.
    destruct (process_tiles raw) eqn:Hraw; simpl.
    + right. by left.
    + right. right. exists raw. by rewrite Hraw.
Qed.

Lemma ensure_preserves_wf (E : env) (max_age : Z) (s : state) :
  tiles_wf (tiles (emote_list_cache s)) ->
  tiles_wf (tiles (emote_list_cache (ensure_emote_list E max_age s).2)).
Proof.
  intros Hwf.
  destruct (ensure_list_cache E max_age s) as [->|[->|(raw & _ & _ & ->)]];
    simpl; try done. apply process_tiles_wf.
Qed.

(** A failing call was not served from the cache. *)
Lemma ensure_raises_not_usable (E : env) (max_age : Z) (s s' : state) (e : exn) :
  ensure_emote_list E max_age s = (Raises e, s') ->
  ~ cache_usable (clock E (clock_reads s)) max_age (emote_list_cache s).
Proof. intros Hrun Hu. by rewrite ensure_reuse in Hrun. Qed.



Lemma cached_detail_run (E : env) (emote_name : string) (s : state) :
  cached_detail E emote_name s
  = match detail_cache s !! emote_name with
    | Some entry =>
        (Returns (if clock E (clock_reads s) - cachedAt entry <? 24 * 60 * 60
                  then Some (data entry) else None),
         ticked s)
    | None => (Returns None, s)
    end.
Proof.
  unfold cached_detail. unfold_monad. simpl.
  destruct (detail_cache s !! emote_name) as [entry|]; [|done]. simpl.
  by destruct (_ <? _).
Qed.

Lemma render_details_run (E : env) (emote_name : string) (s : state) :
  render_details E emote_name s
  = (match page_browser E (page_renders s) (details_url emote_name)
             (Some "Expires:") with
     | inl (PlaywrightError ty msg) =>
         Raises (HTTPException 500
           ("Playwright failed to render emote details: " ++ ty ++ ": " ++ msg))
     | inl e => Raises e
     | inr doc => Returns doc
     end,
     page_rendered s).
Proof.
  unfold render_details, details_url. unfold_monad. simpl.
  by destruct (page_browser E _ _ _) as [[code d|ty msg|ty msg]|doc].
Qed.

Lemma api_emote_detail_run (E : env) (urlparse_path : string -> option string)
    (emote_name : string) (s : state) :
  api_emote_detail E urlparse_path emote_name s
  = match cached_detail E emote_name s with
    | (Returns (Some d), s1) => (Returns d, s1)
    | (Returns None, s1) =>
        match render_details E emote_name s1 with
        | (Returns doc, s2) =>
            let d := parse_emote_details urlparse_path emote_name doc in
            let img :=
              match ensure_emote_list E default_max_age s2 with
              | (Returns _, s3) =>
                  lookup_image emote_name (tiles (emote_list_cache s3))
              | (Raises _, _) => None
              end in
            (Returns (DetailRecord d img),
             detail_stored E emote_name (DetailRecord d img)
               (ensure_emote_list E default_max_age s2).2)
        | (Raises e, s2) => (Raises e, s2)
        end
    | (Raises e, s1) => (Raises e, s1)
    end.
Proof.
  unfold api_emote_detail. unfold mbind, M_bind, bind.
  destruct (cached_detail E emote_name s) as [[[d|]|e] s1]; try done.
  destruct (render_details E emote_name s1) as [[doc|e] s2]; try done.
  rewrite attach_image_run.
  by destruct (ensure_emote_list E default_max_age s2) as [[[]|e] s3].
Qed.

Lemma cached_detail_frame (E : env) (emote_name : string) (s : state) :
  let s1 := (cached_detail E emote_name s).2 in
  emote_list_cache s1 = emote_list_cache s /\
  detail_cache s1 = detail_cache s /\
  grid_renders s1 = grid_renders s /\
  page_renders s1 = page_renders s.
Proof.
  simpl. rewrite cached_detail_run.
  by destruct (detail_cache s !! emote_name).
Qed.






(** X9. Served from a usable list cache, [api_emotes] is read-only: it
    renders nothing, leaves both caches as they are, reads the clock once,
    and answers from the cached tiles with the cache's own [updated_at]. *)
Theorem api_emotes_cache_hit (E : env) (q : string) (limit : Z) (s : state) :
  cache_usable (clock E (clock_reads s)) default_max_age (emote_list_cache s) ->
  api_emotes E q limit s
  = (Returns {| count := length (search_tiles q (tiles (emote_list_cache s)));
                updatedAt := updated_at (emote_list_cache s);
                items := PyList.slice_to limit
                           (search_tiles q (tiles (emote_list_cache s))) |},
     ticked s).
Proof.
  intros Hu. unfold api_emotes. unfold mbind, M_bind, bind.
  rewrite ensure_reuse by done. reflexivity.
Qed.

Lemma api_emotes_cache_hit_witness :
  api_emotes sample_env "frog" 300 warm_state
  = (Returns {| count := 1; updatedAt := 1000;
                items := [Tile "Golden Frog" None] |},
     ticked warm_state).
Proof.
  rewrite (api_emotes_cache_hit sample_env "frog" 300 warm_state).
  - vm_compute. reflexivity.
  - split; [by vm_compute | vm_compute; reflexivity].
Defined.

(** X10. A returning [ensure_emote_list] leaves a non-empty tile list
    whose [updated_at] is either the old one or the clock reading of this
    call; and a following call whose clock reading is within its maximal
    age of that [updated_at] renders nothing and changes no cache. *)
Theorem ensure_then_reuse (E : env) (max_age max_age2 : Z) (s s' : state) :
  ensure_emote_list E max_age s = (Returns tt, s') ->
  tiles (emote_list_cache s') <> [] /\
  (updated_at (emote_list_cache s') = updated_at (emote_list_cache s) \/
   updated_at (emote_list_cache s') = clock E (clock_reads s)) /\
  (clock E (clock_reads s') - updated_at (emote_list_cache s') < max_age2 ->
   ensure_emote_list E max_age2 s' = (Returns tt, ticked s')).
Proof.
  intros Hrun.
  assert (tiles (emote_list_cache s') <> [] /\
          (updated_at (emote_list_cache s') = updated_at (emote_list_cache s) \/
           updated_at (emote_list_cache s') = clock E (clock_reads s)))
    as [Hne Hupd].
  { destruct (decide (cache_usable (clock E (clock_reads s)) max_age
                                   (emote_list_cache s))) as [Hu|Hu].
    - rewrite ensure_reuse in Hrun by done. injection Hrun as <-. simpl.
      split; [by destruct Hu | by left].
    - rewrite ensure_refetch in Hrun by done. simpl in Hrun.
      destruct (grid_browser E (grid_renders s))
        as [[code d|ty msg|ty msg]|raw]; try done.
      destruct (process_tiles raw) eqn:Hraw; simpl in Hrun; [done|].
      injection Hrun as <-. simpl. split; [done | by right]. }
  split; [done|]. split; [done|].
  intros Hage. by apply ensure_reuse.
Qed.

Lemma ensure_then_reuse_witness :
  exists s',
    ensure_emote_list sample_env default_max_age initial_state = (Returns tt, s') /\
    ensure_emote_list sample_env default_max_age s' = (Returns tt, ticked s').
Proof.
  eexists. split; [vm_compute; reflexivity|].
  destruct (ensure_then_reuse sample_env default_max_age default_max_age
              initial_state _ eq_refl) as (_ & _ & Hreuse).
  apply Hreuse. vm_compute. reflexivity.
Defined.

(** X11. A failure is never remembered: after a call of
    [ensure_emote_list] that raised, the next call renders the grid again,
    provided the clock has not gone back and reads at least the maximal
    age (which makes the [updated_at = 0] left by a zero-tile result
    count as old). *)
Theorem ensure_failure_retried (E : env) (max_age : Z) (s s' : state)
    (e : exn) :
  ensure_emote_list E max_age s = (Raises e, s') ->
  clock E (clock_reads s) <= clock E (clock_reads s') ->
  max_age <= clock E (clock_reads s') ->
  grid_renders (ensure_emote_list E max_age s').2 = S (grid_renders s').
Proof.
  intros Hrun Hmono Hlate.
  pose proof (ensure_raises_not_usable _ _ _ _ _ Hrun) as Hu.
  assert (~ cache_usable (clock E (clock_reads s')) max_age
            (emote_list_cache s')) as Hu'.
  { destruct (ensure_list_cache E max_age s) as [Hc|[Hc|(raw & Hgrid & Hne & _)]].
    - rewrite Hrun in Hc. simpl in Hc. rewrite Hc.
      unfold cache_usable in *. intros [Hne Hlt]. apply Hu. split; [done | lia].
    - rewrite Hrun in Hc. simpl in Hc. rewrite Hc.
      unfold cache_usable. simpl. intros [_ Hlt]. lia.
    - rewrite ensure_refetch in Hrun by done. simpl in Hrun.
      rewrite Hgrid in Hrun. by destruct (process_tiles raw). }
  rewrite ensure_refetch by done. simpl.
  destruct (grid_browser E (grid_renders s')) as [[code d|ty msg|ty msg]|raw];
    try done.
  by destruct (is_nil (process_tiles raw)).
Qed.

Lemma ensure_failure_retried_witness :
  exists e s',
    ensure_emote_list empty_grid_env default_max_age stale_state = (Raises e, s') /\
    grid_renders (ensure_emote_list empty_grid_env default_max_age s').2 = 2%nat.
Proof.
  eexists _, _. split; [vm_compute; reflexivity|].
  apply (ensure_failure_retried empty_grid_env default_max_age stale_state _ _
           eq_refl).
  - vm_compute. discriminate.
  - vm_compute. discriminate.
Defined.

(** X12. [api_refresh] renders the grid exactly once and reads the clock
    exactly once in every outcome, and never touches the detail cache. When
    it returns, [ok] is true, [count] is the positive length of the new
    tile list, which is the processed result of this render, and
    [updatedAt] is the clock reading of the call. *)
Theorem api_refresh_effects (E : env) (s : state) :
  let s' := (api_refresh E s).2 in
  grid_renders s' = S (grid_renders s) /\
  clock_reads s' = S (clock_reads s) /\
  page_renders s' = page_renders s /\
  detail_cache s' = detail_cache s /\
  (forall r, (api_refresh E s).1 = Returns r ->
     exists raw,
       grid_browser E (grid_renders s) = inr raw /\
       emote_list_cache s'
       = ListCache (clock E (clock_reads s)) (process_tiles raw) /\
       ok r = true /\ r_count r = length (process_tiles raw) /\
       (0 < r_count r)%nat /\ r_updatedAt r = clock E (clock_reads s)).
Proof.
  cbv zeta. rewrite api_refresh_unfold.
  rewrite ensure_refetch by apply empty_cache_not_usable. simpl.
  destruct (grid_browser E (grid_renders s)) as [[code d|ty msg|ty msg]|raw];
    simpl; try (repeat split; done).
  destruct (process_tiles raw) as [|t ts] eqn:Hraw; simpl.
  - repeat split; done.
  - repeat split; try done. intros r [= <-]. exists raw. simpl.
    rewrite Hraw. simpl. repeat split; try done. lia.
Qed.

(** ** The detail cache *)

Lemma lookup_image_absent (n : string) (ts : list tile) :
  n ∉ name <$> ts -> lookup_image n ts = None.
Proof.
  unfold lookup_image. induction ts as [|t ts IH]; simpl; [done|].
  intros Hn. apply not_elem_of_cons in Hn as [Hne Hn].
  destruct (String.eqb_spec (name t) n) as [Heq|_]; [congruence|]. by apply IH.
Qed.

Lemma lookup_image_present (n : string) (u : option string) (ts : list tile) :
  NoDup (name <$> ts) -> Tile n u ∈ ts -> lookup_image n ts = u.
Proof.
  unfold lookup_image. induction ts as [|t ts IH]; simpl.
  - by intros _ ?%elem_of_nil.
  - intros [Hnotin Hnodup]%NoDup_cons [Heq|Hin]%elem_of_cons.
    + subst t. simpl. by rewrite String.eqb_refl.
    + destruct (String.eqb_spec (name t) n) as [Hname|_]; [|by apply IH].
      destruct Hnotin. rewrite Hname.
      by apply (list_elem_of_fmap_2 name) in Hin.
Qed.

(** X13. After any returning detail request the returned record is in the
    detail cache under the requested name; and a following request for that
    name whose clock reading is less than 24 hours after the entry's
    [cachedAt] returns the same record without rendering anything and
    without changing either cache. At exactly 24 hours the entry is no
    longer served: the details page is rendered again. *)
Theorem detail_memoised (E : env) (urlparse_path : string -> option string)
    (emote_name : string) (s s' : state) (rec : detail_record) :
  api_emote_detail E urlparse_path emote_name s = (Returns rec, s') ->
  exists entry,
    detail_cache s' !! emote_name = Some entry /\ data entry = rec /\
    (clock E (clock_reads s') - cachedAt entry < 24 * 60 * 60 ->
     api_emote_detail E urlparse_path emote_name s' = (Returns rec, ticked s')) /\
    (24 * 60 * 60 <= clock E (clock_reads s') - cachedAt entry ->
     page_renders (api_emote_detail E urlparse_path emote_name s').2
     = S (page_renders s')).
Proof.
  intros Hrun.
  assert (exists entry,
            detail_cache s' !! emote_name = Some entry /\ data entry = rec)
    as (entry & Hentry & Hdata).
  { rewrite api_emote_detail_run, cached_detail_run in Hrun.
    destruct (detail_cache s !! emote_name) as [entry|] eqn:Hentry.
    - destruct (_ <? _).
      + injection Hrun as <- <-. by exists entry.
      + rewrite render_details_run in Hrun.
        destruct (page_browser E _ _ _) as [[code d|ty msg|ty msg]|doc];
          try done.
        injection Hrun as <- <-. eexists. split; [apply lookup_insert_eq|done].
    - rewrite render_details_run in Hrun.
      destruct (page_browser E _ _ _) as [[code d|ty msg|ty msg]|doc];
        try done.
      injection Hrun as <- <-. eexists. split; [apply lookup_insert_eq|done]. }
  exists entry. split; [done|]. split; [done|]. split.
  - intros Hage. rewrite api_emote_detail_run, cached_detail_run, Hentry.
    rewrite (proj2 (Z.ltb_lt _ _)) by done. by rewrite Hdata.
  - intros Hage. rewrite api_emote_detail_run, cached_detail_run, Hentry.
    rewrite (proj2 (Z.ltb_ge _ _)) by done. rewrite render_details_run.
    destruct (page_browser E _ _ _) as [[code d|ty msg|ty msg]|doc]; try done.
    simpl. by destruct (ensure_frame E default_max_age (page_rendered (ticked s')))
      as (_ & -> & _).
Qed.

Lemma detail_memoised_witness :
  exists rec s',
    api_emote_detail failing_env no_urlparse "Golden Goat" initial_state
    = (Returns rec, s') /\
    d_imageUrl rec = None /\
    api_emote_detail failing_env no_urlparse "Golden Goat" s'
    = (Returns rec, ticked s').
Proof.
  eexists _, _. split; [vm_compute; reflexivity|]. split; [reflexivity|].
  destruct (detail_memoised failing_env no_urlparse "Golden Goat"
              initial_state _ _ eq_refl) as (entry & Hentry & Hdata & Hhit & _).
  vm_compute in Hentry. injection Hentry as <-.
  apply Hhit. vm_compute. reflexivity.
Defined.

(** X14. When the detail cache has no young enough entry and the render of
    the details page fails in the rendering layer, [api_emote_detail]
    raises the 500 error; it has not rendered the grid, and neither cache
    has changed. *)
Theorem detail_render_failure (E : env)
    (urlparse_path : string -> option string) (emote_name : string)
    (s s1 : state) (ty msg : string) :
  cached_detail E emote_name s = (Returns None, s1) ->
  page_browser E (page_renders s1) (details_url emote_name) (Some "Expires:")
  = inl (PlaywrightError ty msg) ->
  exists s',
    api_emote_detail E urlparse_path emote_name s
    = (Raises (HTTPException 500
         ("Playwright failed to render emote details: " ++ ty ++ ": " ++ msg)),
       s') /\
    emote_list_cache s' = emote_list_cache s /\
    detail_cache s' = detail_cache s /\
    grid_renders s' = grid_renders s /\
    page_renders s' = S (page_renders s).
Proof.
  intros Hcached Hpage.
  destruct (cached_detail_frame E emote_name s) as (Hlist & Hdetail & Hgrid & Hp).
  rewrite Hcached in Hlist, Hdetail, Hgrid, Hp. simpl in *.
  rewrite api_emote_detail_run, Hcached, render_details_run, Hpage.
  eexists. split; [done|]. simpl. by rewrite Hp.
Qed.

Lemma detail_render_failure_witness :
  exists s',
    api_emote_detail page_failing_env no_urlparse "Golden Goat" warm_state
    = (Raises (HTTPException 500
         "Playwright failed to render emote details: TimeoutError: Timeout 60000ms exceeded."),
       s') /\
    emote_list_cache s' = emote_list_cache warm_state /\
    grid_renders s' = 0%nat.
Proof.
  destruct (detail_render_failure page_failing_env no_urlparse "Golden Goat"
              warm_state warm_state "TimeoutError" "Timeout 60000ms exceeded.")
    as (s' & Hrun & Hlist & _ & Hgrid & _).
  - reflexivity.
  - reflexivity.
  - exists s'. split; [exact Hrun|]. split; [exact Hlist | exact Hgrid].
Defined.

(** X15. A detail request for one name leaves the detail-cache entries of
    all other names as they were, in every outcome, and never removes an
    entry: a name that was cached stays cached. *)
Theorem detail_cache_frame (E : env) (urlparse_path : string -> option string)
    (emote_name k : string) (s : state) :
  k <> emote_name ->
  let s' := (api_emote_detail E urlparse_path emote_name s).2 in
  detail_cache s' !! k = detail_cache s !! k /\
  (forall k', is_Some (detail_cache s !! k') ->
              is_Some (detail_cache s' !! k')).
Proof.
  intros Hk. cbv zeta.
  assert (forall k', k' <> emote_name ->
            detail_cache (api_emote_detail E urlparse_path emote_name s).2 !! k'
            = detail_cache s !! k') as Hframe.
  { intros k' Hk'. rewrite api_emote_detail_run.
    destruct (cached_detail_frame E emote_name s) as (_ & Hd & _).
    destruct (cached_detail E emote_name s) as [[[d|]|e] s1]; simpl in *;
      try by rewrite Hd.
    rewrite render_details_run.
    destruct (page_browser E _ _ _) as [[code d|ty msg|ty msg]|doc]; simpl;
      try by rewrite Hd.
    rewrite lookup_insert_ne by done.
    destruct (ensure_frame E default_max_age (page_rendered s1)) as (-> & _).
    simpl. by rewrite Hd. }
  split; [by apply Hframe|].
  intros k' Hsome. destruct (decide (k' = emote_name)) as [->|Hne].
  - rewrite api_emote_detail_run.
    destruct (cached_detail_frame E emote_name s) as (_ & Hd & _).
    destruct (cached_detail E emote_name s) as [[[d|]|e] s1]; simpl in *;
      try by rewrite Hd.
    rewrite render_details_run.
    destruct (page_browser E _ _ _) as [[code d|ty msg|ty msg]|doc]; simpl;
      try by rewrite Hd.
    rewrite lookup_insert_eq. by eexists.
  - by rewrite Hframe.
Qed.

Lemma detail_cache_frame_witness :
  detail_cache (api_emote_detail sample_env no_urlparse "Golden Goat"
                  other_cached_state).2 !! "Silver Fox"
  = detail_cache other_cached_state !! "Silver Fox".
Proof.
  apply (detail_cache_frame sample_env no_urlparse "Golden Goat" "Silver Fox"
           other_cached_state).
  discriminate.
Defined.

(** X16. When the details page renders and the freshness check returns,
    the image attached to the record is looked up by the exact requested
    name in a well-formed list cache: it is the [imageUrl] of the cached
    tile of that name, and null when no cached tile has exactly that name
    (a name differing only in case does not count). *)
Theorem detail_image_exact_name (E : env)
    (urlparse_path : string -> option string) (emote_name : string)
    (s s1 s2 s3 s' : state) (doc : html) (rec : detail_record) :
  tiles_wf (tiles (emote_list_cache s)) ->
  cached_detail E emote_name s = (Returns None, s1) ->
  render_details E emote_name s1 = (Returns doc, s2) ->
  ensure_emote_list E default_max_age s2 = (Returns tt, s3) ->
  api_emote_detail E urlparse_path emote_name s = (Returns rec, s') ->
  parsed rec = parse_emote_details urlparse_path emote_name doc /\
  (forall u, Tile emote_name u ∈ tiles (emote_list_cache s3) ->
             d_imageUrl rec = u) /\
  (emote_name ∉ name <$> tiles (emote_list_cache s3) ->
   d_imageUrl rec = None).
Proof.
  intros Hwf Hcached Hrender Hensure Hrun.
  assert (tiles_wf (tiles (emote_list_cache s3))) as (Hnodup & _).
  { replace s3 with (ensure_emote_list E default_max_age s2).2
      by by rewrite Hensure.
    apply ensure_preserves_wf.
    destruct (cached_detail_frame E emote_name s) as (Hc & _).
    rewrite Hcached in Hc. simpl in Hc.
    rewrite render_details_run in Hrender. injection Hrender as _ <-.
    simpl. by rewrite Hc. }
  rewrite api_emote_detail_run, Hcached, Hrender, Hensure in Hrun.
  injection Hrun as <- _. simpl. split; [done|]. split.
  - intros u Hu. by apply lookup_image_present.
  - apply lookup_image_absent.
Qed.

Lemma detail_image_exact_name_witness :
  exists rec s',
    api_emote_detail sample_env no_urlparse "Golden Goat" initial_state
    = (Returns rec, s') /\
    d_imageUrl rec = Some "https://cdn.example/goat.png".
Proof.
  eexists _, _. split; [vm_compute; reflexivity|].
  refine (proj1 (proj2
    (detail_image_exact_name sample_env no_urlparse "Golden Goat"
       initial_state initial_state (page_rendered initial_state)
       (State (ListCache 1000 (process_tiles sample_grid)) ∅ 1 1 1)
       _ (Html [] EmptyString) _ tiles_wf_nil eq_refl eq_refl
       _ _)) _ _).
  - vm_compute. reflexivity.
  - vm_compute. reflexivity.
  - apply list_elem_of_In. vm_compute. right. left. reflexivity.
Defined.

(** ** More on detail extraction *)

Lemma prefix_app_sep (sub a : string) (c : ascii) (b : string) :
  lacks c sub = true ->
  String.prefix sub (a ++ String c b) = true -> String.prefix sub a = true.
Proof.
  revert sub. induction a as [|x a IH]; intros [|d sub] Hlacks; try done.
  - rewrite append_nil_l. simpl.
    unfold lacks in Hlacks. simpl in Hlacks.
    apply andb_true_iff in Hlacks as [Hd _].
    destruct (ascii_dec d c) as [->|_]; [|done].
    by rewrite Ascii.eqb_refl in Hd.
  - rewrite append_cons. simpl.
    unfold lacks in *. simpl in Hlacks.
    apply andb_true_iff in Hlacks as [_ Hsub].
    destruct (ascii_dec d x); [by apply IH | done].
Qed.

Lemma contains_app_sep (sub a : string) (c : ascii) (b : string) :
  lacks c sub = true ->
  PyStr.contains sub (a ++ String c b) = true ->
  PyStr.contains sub a = true \/ PyStr.contains sub b = true.
Proof.
  intros Hlacks. induction a as [|x a IH].
  - rewrite append_nil_l, contains_cons. intros [Hp|Hb]%orb_true_iff.
    + left. rewrite contains_nil.
      by apply (prefix_app_sep sub "" c b).
    + by right.
  - rewrite append_cons, !contains_cons. intros [Hp|Hrest]%orb_true_iff.
    + left. apply orb_true_iff. left.
      by apply (prefix_app_sep sub (String x a) c b).
    + destruct (IH Hrest) as [Ha|Hb]; [|by right].
      left. apply orb_true_iff. by right.
Qed.

Lemma Substring_app_l (sub a b : string) : Substring sub a -> Substring sub (a ++ b).
Proof.
  intros (u & v & ->). exists u, (v ++ b). by rewrite !append_assoc.
Qed.

Lemma Substring_app_r (sub a b : string) : Substring sub b -> Substring sub (a ++ b).
Proof.
  intros (u & v & ->). exists (a ++ u), v. by rewrite !append_assoc.
Qed.

Lemma join_cons2 (sep x y : string) (l : list string) :
  PyStr.join sep (x :: y :: l) = x ++ sep ++ PyStr.join sep (y :: l).
Proof. reflexivity. Qed.

(** A block without the separator lies in the joined text exactly when it
    lies in one of the joined pieces. *)
Lemma contains_join (sub : string) (c : ascii) (l : list string) :
  sub <> "" -> lacks c sub = true ->
  PyStr.contains sub (PyStr.join (String c "") l) = true
  <-> exists x, x ∈ l /\ PyStr.contains sub x = true.
Proof.
  intros Hne Hlacks. induction l as [|x [|y l] IH].
  - simpl. split; [by destruct sub | by intros (x & ?%elem_of_nil & _)].
  - simpl. split; [intros Hx; exists x; split; [by left | done]|].
    by intros (z & ->%list_elem_of_singleton & Hz).
  - rewrite join_cons2. split.
    + intros [Hx|Hrest]%contains_app_sep; [| |done].
      * exists x. split; [by left | done].
      * apply IH in Hrest as (z & Hz & Hsub). exists z. split; [by right|done].
    + intros (z & [->|Hz]%elem_of_cons & Hsub); apply contains_spec.
      * apply Substring_app_l. by apply contains_spec.
      * apply Substring_app_r, Substring_app_r, contains_spec, IH.
        by exists z.
Qed.

Lemma flat_lines_trimmed (doc : html) (x : string) :
  x ∈ flat_lines doc -> trimmed_name x.
Proof.
  intros Hx. split; [by eapply flat_lines_nonblank|].
  unfold flat_lines in Hx. apply list_elem_of_fmap in Hx as (y & -> & _).
  apply strip_idempotent.
Qed.

Lemma select_twitch_href (doc : html) (a : anchor) :
  a ∈ select_twitch doc ->
  a ∈ anchors doc /\
  exists u, href a = Some u /\ Substring "twitch.tv/" u /\ u <> "".
Proof.
  unfold select_twitch. intros [Hhref Ha]%list_elem_of_filter.
  split; [done|]. destruct (href a) as [u|]; simpl in Hhref; [|done].
  exists u. split; [done|]. split; [by apply contains_spec|].
  intros ->. done.
Qed.

(** The loop returns the first link with visible text, all links before
    it having none. *)
Lemma first_labelled_first (l : list anchor) :
  Forall (fun a => truthy_opt (href a) = true) l ->
  (first_labelled l = (None, None) /\ Forall (fun a => anchor_text a = "") l) \/
  (exists pre a post,
      l = (pre ++ a :: post)%list /\
      Forall (fun b => anchor_text b = "") pre /\
      anchor_text a <> "" /\
      first_labelled l = (href a, Some (anchor_text a))).
Proof.
  induction 1 as [|a l Hhref Hl IH]; simpl; [left; by split|].
  rewrite Hhref. simpl.
  destruct (anchor_text a) as [|c txt] eqn:Htxt; simpl.
  - destruct IH as [[-> Hall]|(pre & b & post & -> & Hpre & Hb & ->)].
    + left. split; [done|]. by constructor.
    + right. exists (a :: pre), b, post. split; [done|].
      split; [by constructor | done].
  - right. exists [], a, l. rewrite Htxt. split; [done|].
    split; [constructor | done].
Qed.

(** X17. [notFound] is true exactly when one of the flattened lines
    contains the text ["Emote not found"]; it does not depend on the
    requested name or on any other field. *)
Theorem not_found_iff_line (urlparse_path : string -> option string)
    (emote_name : string) (doc : html) :
  notFound (parse_emote_details urlparse_path emote_name doc) = true
  <-> exists line, line ∈ flat_lines doc /\ Substring "Emote not found" line.
Proof.
  rewrite parse_not_found, contains_join by done.
  split; intros (line & Hline & Hsub); exists line; split; try done;
    by apply contains_spec.
Qed.

(** X18. [channelUrl] and [channel] are null together or set together.
    When set, they are the [href] and the text of one hyperlink of the
    page, whose [href] contains ["twitch.tv/"] and whose text is
    non-empty, every matching hyperlink before it having no text; when
    null, no matching hyperlink has text. *)
Theorem channel_fields (urlparse_path : string -> option string)
    (emote_name : string) (doc : html) :
  let d := parse_emote_details urlparse_path emote_name doc in
  (channelUrl d = None /\ channel d = None /\
   Forall (fun a => anchor_text a = "") (select_twitch doc)) \/
  (exists pre a post u,
      select_twitch doc = (pre ++ a :: post)%list /\
      Forall (fun b => anchor_text b = "") pre /\
      a ∈ anchors doc /\
      href a = Some u /\ Substring "twitch.tv/" u /\
      anchor_text a <> "" /\
      channelUrl d = Some u /\ channel d = Some (anchor_text a)).
Proof.
  cbv zeta.
  destruct (parse_channel urlparse_path emote_name doc) as [-> ->].
  destruct (first_labelled_first (select_twitch doc))
    as [[-> Hall]|(pre & a & post & Hl & Hpre & Ha & ->)].
  - apply Forall_forall. intros a (_ & u & -> & _ & Hu)%select_twitch_href.
    simpl. by destruct u.
  - by left.
  - right.
    assert (a ∈ select_twitch doc) as Hin.
    { rewrite Hl. apply elem_of_app. right. by left. }
    apply select_twitch_href in Hin as (Hin & u & Hu & Hsub & _).
    exists pre, a, post, u. simpl. by rewrite Hu.
Qed.

(** X19. Every flattened line is non-empty and free of surrounding
    whitespace, so a requested name that is empty or carries surrounding
    whitespace is never found among the lines: [source] and [tier] are
    null and ["Expires:"] is searched from the first line. *)
Theorem untrimmed_name_not_located (urlparse_path : string -> option string)
    (emote_name : string) (doc : html) :
  ~ trimmed_name emote_name ->
  let d := parse_emote_details urlparse_path emote_name doc in
  (forall line, line ∈ flat_lines doc -> trimmed_name line) /\
  source d = None /\ tier d = None /\
  expires d = expires_from (flat_lines doc) 0.
Proof.
  intros Hname. cbv zeta.
  split; [intros line; apply flat_lines_trimmed|].
  apply parse_fields_name_absent.
  intros Hin. by apply Hname, (flat_lines_trimmed doc).
Qed.

Lemma untrimmed_name_not_located_witness :
  let d := parse_emote_details no_urlparse " Golden Goat"
             (document_of six_lines) in
  source d = None /\ tier d = None /\ expires d = Some "2025-01-01".
Proof.
  destruct (untrimmed_name_not_located no_urlparse " Golden Goat"
              (document_of six_lines)) as (_ & Hsource & Htier & Hexpires).
  - intros [_ Hstrip]. vm_compute in Hstrip. discriminate Hstrip.
  - split; [exact Hsource|]. split; [exact Htier|].
    rewrite Hexpires. vm_compute. reflexivity.
Defined.

(** ** Search responses *)

Lemma ensure_returns_nonempty (E : env) (max_age : Z) (s s' : state) :
  ensure_emote_list E max_age s = (Returns tt, s') ->
  tiles (emote_list_cache s') <> [].
Proof.
  intros Hrun.
  destruct (decide (cache_usable (clock E (clock_reads s)) max_age
                                 (emote_list_cache s))) as [Hu|Hu].
  - rewrite ensure_reuse in Hrun by done. injection Hrun as <-. by destruct Hu.
  - rewrite ensure_refetch in Hrun by done. simpl in Hrun.
    destruct (grid_browser E (grid_renders s))
      as [[code d|ty msg|ty msg]|raw]; try done.
    destruct (process_tiles raw) eqn:Hraw; simpl in Hrun; [done|].
    by injection Hrun as <-.
Qed.

(** X20. [api_emotes] never answers from an empty tile list: when it
    returns, the cached list is non-empty, [count] is at most its length,
    an empty query has a positive [count], and [updatedAt] is the cache's
    [updated_at]; when it raises, the exception and the state are those of
    the freshness check. *)
Theorem api_emotes_outcomes (E : env) (q : string) (limit : Z) (s : state) :
  (forall r s',
      api_emotes E q limit s = (Returns r, s') ->
      tiles (emote_list_cache s') <> [] /\
      (count r <= length (tiles (emote_list_cache s')))%nat /\
      (q = "" -> (0 < count r)%nat) /\
      updatedAt r = updated_at (emote_list_cache s')) /\
  (forall e s',
      api_emotes E q limit s = (Raises e, s') ->
      ensure_emote_list E default_max_age s = (Raises e, s')).
Proof.
  split.
  - intros r s' Hrun. apply api_emotes_returns in Hrun as [Hens ->]. simpl.
    apply ensure_returns_nonempty in Hens.
    split; [done|]. split; [apply sublist_length, search_tiles_sublist|].
    split; [|done]. intros ->. rewrite search_tiles_empty_query.
    destruct (tiles (emote_list_cache s')); [done | simpl; lia].
  - intros e s'. unfold api_emotes. unfold_monad.
    destruct (ensure_emote_list E default_max_age s) as [[[]|e'] s1]; simpl;
      [done|]. by intros [= -> ->].
Qed.

(** ** The remaining outcomes of a refetch *)

(** X21. A refetch that yields at least one tile returns normally and
    replaces the cached tiles by the processed result of the render and
    [updated_at] by the clock reading taken at the start of the call; the
    grid was rendered once and the detail cache is untouched. *)
Theorem ensure_refetch_success (E : env) (max_age : Z) (s : state)
    (raw : list raw_tile) :
  ~ cache_usable (clock E (clock_reads s)) max_age (emote_list_cache s) ->
  grid_browser E (grid_renders s) = inr raw ->
  process_tiles raw <> [] ->
  ensure_emote_list E max_age s
  = (Returns tt,
     State (ListCache (clock E (clock_reads s)) (process_tiles raw))
           (detail_cache s) (S (clock_reads s)) (S (grid_renders s))
           (page_renders s)).
Proof.
  intros Hu Hgrid Hne. rewrite ensure_refetch by done. simpl.
  rewrite Hgrid. by destruct (process_tiles raw).
Qed.

Lemma ensure_refetch_success_witness :
  ensure_emote_list sample_env default_max_age initial_state
  = (Returns tt,
     State (ListCache 1000 [Tile "Golden Frog" None;
                            Tile "Golden Goat" (Some "https://cdn.example/goat.png")])
           ∅ 1 1 0).
Proof.
  rewrite (ensure_refetch_success sample_env default_max_age initial_state
             sample_grid).
  - vm_compute. reflexivity.
  - apply empty_cache_not_usable.
  - reflexivity.
  - vm_compute. discriminate.
Defined.

(** X22. An exception of the grid render that is not a Playwright error
    is not translated: [ensure_emote_list] raises that very exception, and
    the list cache is unchanged. The same holds for [api_emotes], which
    adds nothing to it. *)
Theorem ensure_foreign_exception (E : env) (max_age : Z) (s : state) (e : exn) :
  ~ cache_usable (clock E (clock_reads s)) max_age (emote_list_cache s) ->
  grid_browser E (grid_renders s) = inl e ->
  not_playwright e ->
  exists s',
    ensure_emote_list E max_age s = (Raises e, s') /\
    emote_list_cache s' = emote_list_cache s /\
    (max_age = default_max_age ->
     forall q limit, api_emotes E q limit s = (Raises e, s')).
Proof.
  intros Hu Hgrid Hforeign.
  assert (ensure_emote_list E max_age s
          = (Raises e,
             State (emote_list_cache s) (detail_cache s) (S (clock_reads s))
                   (S (grid_renders s)) (page_renders s))) as Hrun.
  { rewrite ensure_refetch by done. simpl. rewrite Hgrid. by destruct e. }
  eexists. split; [exact Hrun|]. split; [done|].
  intros -> q limit. unfold api_emotes. unfold mbind, M_bind, bind.
  by rewrite Hrun.
Qed.

Lemma ensure_foreign_exception_witness :
  exists s',
    api_emotes crashing_env "goat" 300 stale_state
    = (Raises (OtherException "OSError" "browser executable not found"), s') /\
    emote_list_cache s' = emote_list_cache stale_state.
Proof.
  destruct (ensure_foreign_exception crashing_env default_max_age stale_state
              (OtherException "OSError" "browser executable not found"))
    as (s' & _ & Hcache & Hemotes).
  - unfold cache_usable. vm_compute. intros [_ Hlt]. discriminate Hlt.
  - reflexivity.
  - exact I.
  - exists s'. split; [by apply Hemotes | exact Hcache].
Defined.
